(** * Loopix-style anonymous messaging: helpers, provider server and client

  A shallow embedding of the Go packages [helpers] (path sampling),
  [server] (the provider: registration, token authentication, inbox
  storage, pull delivery, the accept loop) and [client] (the client's
  accept loop), with the properties of the design document stated and
  settled against the code.

  Conventions.
  - A Go [[]byte] is a [list byte]; a Go [string] is a [string] (a
    sequence of 8-bit characters, so ["\xA2"] is the one-character
    string holding character 162).
  - A Go [error] is a value of type [error]; [nil] is [None] where an
    [error] is returned on its own, and the success side of a sum where
    it is returned next to a result.
  - A Go run-time panic is the [Panicked] constructor of [outcome]. *)

From Stdlib Require Import ZArith List.
From Stdlib.Strings Require Import String Ascii Byte.
From stdpp Require Import base option list sorting strings gmap fin_maps.

(** ** Go run-time basics *)

(** The Go [error] interface: a value that carries its message. *)
Inductive error : Type :=
| errorString (msg : string).

#[global] Instance error_eq_dec : EqDecision error.
Proof. solve_decision. Defined.

#[global] Instance byte_eq_dec : EqDecision byte := Byte.byte_eq_dec.

(** [err.Error()]. *)
Definition Error_ (e : error) : string :=
  match e with errorString msg => msg end.

(** The result of a call that may panic. *)
Inductive outcome (A : Type) : Type :=
| Returned (a : A)
| Panicked (msg : string).
Arguments Returned {A} a.
Arguments Panicked {A} msg.

Definition outcome_bind {A B} (m : outcome A) (k : A → outcome B) : outcome B :=
match m with
| Returned a => k a
| Panicked msg => Panicked msg
end.

(** ** Package [helpers] *)
Module helpers.

Section sampling.
(** [config.MixPubs] is declared in the [config] package; the sampler
    only moves its values around, so it is a type parameter here,
    together with its zero value (what [make] fills a fresh slice
    with). *)
Context {MixPubs : Type} (zeroMixPubs : MixPubs).

(** [rand.Seed(s); rand.Perm(n)] of [math/rand]: a function of the seed
    and of [n]. *)
Variable rand_Perm : Z → nat → list nat.
(** The loop [for i, v := range permutation { permutedData[v] = slice[i] }].
    Both index expressions are bounds-checked by the run time. *)
Fixpoint Permute_range (i : nat) (permutation : list nat)
    (slice permutedData : list MixPubs) : outcome (list MixPubs) :=
  match permutation with
  | [] => Returned permutedData
  | v :: rest =>
      match slice !! i with
      | None => Panicked "index out of range"
      | Some x =>
          if decide (v < length permutedData)
          then Permute_range (S i) rest slice (<[v := x]> permutedData)
          else Panicked "index out of range"
      end
  end.

(** [Permute]; [now] is the clock reading [time.Now().UTC().UnixNano()]
    the generator is seeded with. *)
Definition Permute (now : Z) (slice : list MixPubs) : outcome (list MixPubs) :=
  let permutedData := replicate (length slice) zeroMixPubs in
  let permutation := rand_Perm now (length slice) in
  Permute_range 0 permutation slice permutedData.

(** [RandomSample]: the slice expression [permuted[:length]] panics
    unless [0 <= length <= cap(permuted)], and the capacity of a slice
    built by [make([]T, n)] is [n]. *)
Definition RandomSample (now : Z) (slice : list MixPubs) (length : Z)
    : outcome (list MixPubs) :=
  outcome_bind (Permute now slice) (λ permuted,
    if decide (0 ≤ length ≤ Z.of_nat (List.length permuted))%Z
    then Returned (take (Z.to_nat length) permuted)
    else Panicked "slice bounds out of range").

End sampling.
End helpers.

(** ** Declarations of the packages [sphinx] and [config]

    The message types of both packages are generated from
    protocol-buffer descriptions that are not among the sources; the
    records below carry the fields the server code reads. *)
Module sphinx.
Record Hop : Type := {
  Id : string;
  Address : string;
  PubKey : list byte;
}.
End sphinx.

Module config.
Record ClientConfig : Type := {
  Id : string;
  Host : string;
  Port : string;
  PubKey : list byte;
}.

Record PullRequest : Type := {
  ClientId : string;
  Token : list byte;
}.

Record GeneralPacket : Type := {
  Flag : string;
  Data : list byte;
}.
End config.

(** ** The library calls the server makes

    Functions of other packages whose results the server only passes on.
    [proto.Unmarshal] fills the message it is given and returns an error
    value, so each instance returns the message together with the error.
    [ProcessPacket] is the Sphinx unwrap of the embedded [node.Mix]; it
    reports the decrypted packet, the next hop, the inner flag and an
    error. *)
Class Libraries : Type := {
  Unmarshal_ClientConfig : list byte → config.ClientConfig * option error;
  Unmarshal_PullRequest : list byte → config.PullRequest * option error;
  Unmarshal_GeneralPacket : list byte → config.GeneralPacket * option error;
  WrapWithFlag : string → list byte → error + list byte;
  MD5Hash : list byte → list byte;
  ProcessPacket : list byte → list byte * sphinx.Hop * string * option error;
}.

(** [bytes.Compare]: lexicographic comparison of two byte slices, with
    result [-1], [0] or [+1]; a [nil] slice is an empty slice. *)
Fixpoint bytes_Compare (a b : list byte) : Z :=
  match a, b with
  | [], [] => 0
  | [], _ :: _ => -1
  | _ :: _, [] => 1
  | x :: a', y :: b' =>
      match N.compare (Byte.to_N x) (Byte.to_N y) with
      | Lt => -1
      | Gt => 1
      | Eq => bytes_Compare a' b'
      end
  end%Z.

(** ** Listening sockets and accept loops

    What a node's listener hands to its accept loop: [Accept] either
    fails or yields a connection.  A connection is described by the
    peer's address and by what the single [conn.Read] of the handler
    returns. *)
Record Conn : Type := {
  RemoteAddr : string;
  conn_Read : list byte * option error;
}.

Inductive accepted : Type :=
| AcceptError (err : error)
| AcceptConn (conn : Conn).

(** Where an accept loop stands: still accepting, or left through
    [os.Exit]. *)
Inductive loop_status : Type :=
| Accepting
| Exited (code : Z).

(** The loop [for { conn, err := listener.Accept(); ... }] run against
    the results of the successive [Accept] calls; each iteration says how
    it leaves the loop. *)
Fixpoint accept_loop {S : Type} (iteration : accepted → S → loop_status * S)
    (incoming : list accepted) (s : S) : loop_status * S :=
  match incoming with
  | [] => (Accepting, s)
  | a :: rest =>
      match iteration a s with
      | (Accepting, s') => accept_loop iteration rest s'
      | stopped => stopped
      end
  end.

(** ** Package [server] *)
Module server.

(** The flags of the wire envelope.  The source writes three of them
    with a hexadecimal escape (one character each: 162, 198, 255) and
    [TOKEN_FLAG] without the backslash, as the three characters [xA9]. *)
Definition ASSIGNE_FLAG : string := String "162" EmptyString.
Definition COMM_FLAG : string := String "198" EmptyString.
Definition TOKEN_FLAG : string := "xA9".
Definition PULL_FLAG : string := String "255" EmptyString.

Record ClientRecord : Type := {
  Id : string;
  Host : string;
  Port : string;
  PubKey : list byte;
  Token : list byte;
}.

(** The zero value of [ClientRecord], which indexing the map with an
    absent key yields. *)
Definition zeroClientRecord : ClientRecord :=
  {| Id := ""; Host := ""; Port := ""; PubKey := []; Token := [] |}.

(** Severity of a log entry written through [logrus]. *)
Inductive Level : Type := Info | Warning | Error.

#[global] Instance Level_eq_dec : EqDecision Level.
Proof. solve_decision. Defined.

(** *** The provider and the world around it

    [assignedClients] is the provider's map.  The inbox tree is a map
    from a directory path, as the code formats it, to the directory's
    entries (file name to contents); the model does not normalise paths,
    so client ids and message ids are taken to be non-empty and free of
    path separators.  [network] records
    every packet written to a dialled connection, with the address
    dialled.  [logs] collects the log entries (without the ["id"] field).
    [faults] decides the next input/output operations: each operation
    consumes one element, fails with the error it holds, and proceeds
    normally on [None] or when the list is exhausted. *)
Record World : Type := {
  assignedClients : gmap string ClientRecord;
  inboxes : gmap string (gmap string (list byte));
  network : list (string * list byte);
  logs : list (Level * string);
  faults : list (option error);
}.

Definition set_assignedClients (f : gmap string ClientRecord → gmap string ClientRecord)
    (w : World) : World :=
  {| assignedClients := f (assignedClients w); inboxes := inboxes w;
     network := network w; logs := logs w; faults := faults w |}.

Definition set_inboxes
    (f : gmap string (gmap string (list byte)) → gmap string (gmap string (list byte)))
    (w : World) : World :=
  {| assignedClients := assignedClients w; inboxes := f (inboxes w);
     network := network w; logs := logs w; faults := faults w |}.

Definition set_network (f : list (string * list byte) → list (string * list byte))
    (w : World) : World :=
  {| assignedClients := assignedClients w; inboxes := inboxes w;
     network := f (network w); logs := logs w; faults := faults w |}.

Definition set_logs (f : list (Level * string) → list (Level * string))
    (w : World) : World :=
  {| assignedClients := assignedClients w; inboxes := inboxes w;
     network := network w; logs := f (logs w); faults := faults w |}.

Definition set_faults (f : list (option error) → list (option error))
    (w : World) : World :=
  {| assignedClients := assignedClients w; inboxes := inboxes w;
     network := network w; logs := logs w; faults := f (faults w) |}.

(** A computation that reads and updates the world and returns a value
    or an error; the world it leaves behind is kept in both cases. *)
Definition IO (A : Type) : Type := World → (error + A) * World.

#[global] Instance IO_ret : MRet IO := λ A a w, (inr a, w).

#[global] Instance IO_bind : MBind IO := λ A B k m w,
  match m w with
  | (inl e, w') => (inl e, w')
  | (inr a, w') => k a w'
  end.

Definition throw {A} (e : error) : IO A := λ w, (inl e, w).

Definition modify (f : World → World) : IO unit := λ w, (inr tt, f w).

Definition get : IO World := λ w, (inr w, w).

(** Lifts a library result [(value, err)] checked with [if err != nil]. *)
Definition checked {A} (r : A * option error) : IO A :=
  match r.2 with
  | Some e => throw e
  | None => mret r.1
  end.

Definition of_sum {A} (r : error + A) : IO A := λ w, (r, w).

(** One input/output operation: it fails when the head of [faults] says
    so, and otherwise runs [op]. *)
Definition io {A} (op : IO A) : IO A := λ w,
  match faults w with
  | Some e :: rest => (inl e, set_faults (λ _, rest) w)
  | None :: rest => op (set_faults (λ _, rest) w)
  | [] => op w
  end.

Definition log (level : Level) (msg : string) : IO unit :=
  modify (set_logs (λ l, l ++ [(level, msg)])).

(** *** File system and network operations *)

(** Modelled from the spec: [helpers.DirExists] is declared in a file of
    package [helpers] that is not among the sources.  It tells whether
    the directory exists (the inbox directory that registration ensures
    and whose absence a fetch reports), or returns the error of the
    underlying [os.Stat]. *)
Definition DirExists (path : string) : IO bool :=
  io (λ w, (inr (bool_decide (is_Some (inboxes w !! path))), w)).

(** [os.MkdirAll]: creates the directory; nothing to do when it exists. *)
Definition MkdirAll (path : string) : IO unit :=
  io (modify (set_inboxes (λ fs,
    match fs !! path with
    | Some _ => fs
    | None => <[path := ∅]> fs
    end))).

(** [ioutil.ReadDir]: the entries of the directory sorted by file name. *)
Definition ReadDir (path : string) : IO (list string) :=
  io (λ w,
    match inboxes w !! path with
    | Some dir => (inr (merge_sort String.le (map_to_list dir).*1), w)
    | None => (inl (errorString ("open " +:+ path +:+ ": no such file or directory")), w)
    end).

(** [ioutil.ReadFile] of [path/name]. *)
Definition ReadFile (path name : string) : IO (list byte) :=
  io (λ w,
    match inboxes w !! path ≫= (.!! name) with
    | Some dat => (inr dat, w)
    | None => (inl (errorString ("open " +:+ path +:+ "/" +:+ name
                                  +:+ ": no such file or directory")), w)
    end).

(** [os.Create] of [path/name]: creates the file or truncates it; the
    directory must exist. *)
Definition Create (path name : string) : IO unit :=
  io (λ w,
    match inboxes w !! path with
    | Some dir => (inr tt, set_inboxes (<[path := <[name := []]> dir]>) w)
    | None => (inl (errorString ("open " +:+ path +:+ "/" +:+ name
                                  +:+ ": no such file or directory")), w)
    end).

(** [file.Write] on the file just created: a failed write leaves the
    file as [Create] left it. *)
Definition file_Write (path name : string) (message : list byte) : IO unit :=
  io (modify (set_inboxes (λ fs,
    match fs !! path with
    | Some dir => <[path := <[name := message]> dir]> fs
    | None => fs
    end))).

(** [net.Dial("tcp", address)]. *)
Definition Dial (address : string) : IO string :=
  io (mret address).

(** [conn.Write(packet)] on a connection to [address]; the server never
    looks at its result, so a failed write only leaves the packet
    unsent. *)
Definition conn_Write (address : string) (packet : list byte) : IO unit := λ w,
  match io (modify (set_network (λ n, n ++ [(address, packet)]))) w with
  | (_, w') => (inr tt, w')
  end.

(** *** The provider's methods *)
Section provider.
Context `{Libraries}.

(** [Send]: dials, writes the packet and ignores what the write reports. *)
Definition Send (packet : list byte) (address : string) : IO unit :=
  conn ← Dial address;
  conn_Write conn packet.

Definition ForwardPacket (sphinxPacket : list byte) (address : string) : IO unit :=
  packetBytes ← of_sum (WrapWithFlag COMM_FLAG sphinxPacket);
  _ ← Send packetBytes address;
  log Info " Forwarded sphinx packet".

Definition StoreMessage (message : list byte) (inboxId messageId : string) : IO unit :=
  let path := "./inboxes/" +:+ inboxId in
  let name := messageId +:+ ".txt" in
  _ ← Create path name;
  _ ← file_Write path name message;
  log Info (" Stored message for " +:+ inboxId).

(** [ReceivedPacket]; the cases of the switch are the one-byte strings
    ["\xF1"] (character 241) and ["\xF0"] (character 240). *)
Definition ReceivedPacket (packet : list byte) : IO unit :=
  _ ← log Info "Received new sphinx packet";
  '(dePacket, nextHop, flag) ← checked (ProcessPacket packet);
  if decide (flag = String "241" EmptyString) then
    ForwardPacket dePacket (sphinx.Address nextHop)
  else if decide (flag = String "240" EmptyString) then
    StoreMessage dePacket (sphinx.Id nextHop) "TMP_MESSAGE_ID"
  else
    log Info "Sphinx packet flag not recognised".

Definition RegisterNewClient (clientBytes : list byte) : IO (list byte * string) :=
  clientConf ← checked (Unmarshal_ClientConfig clientBytes);
  let token := MD5Hash (list_byte_of_string ("TMP_Token" +:+ config.Id clientConf)) in
  let record := {| Id := config.Id clientConf; Host := config.Host clientConf;
                   Port := config.Port clientConf; PubKey := config.PubKey clientConf;
                   Token := token |} in
  _ ← modify (set_assignedClients (<[config.Id clientConf := record]>));
  let address := config.Host clientConf +:+ ":" +:+ config.Port clientConf in
  let path := "./inboxes/" +:+ config.Id clientConf in
  exists_ ← DirExists path;
  _ ← (if bool_decide (exists_ = false) then MkdirAll path else mret tt);
  mret (token, address).

Definition HandleAssignRequest (packet : list byte) : IO unit :=
  _ ← log Info "Received assign request from the client";
  '(token, adr) ← RegisterNewClient packet;
  tokenBytes ← of_sum (WrapWithFlag TOKEN_FLAG token);
  Send tokenBytes adr.

(** [p.assignedClients[clientId]]. *)
Definition client_record (w : World) (clientId : string) : ClientRecord :=
  default zeroClientRecord (assignedClients w !! clientId).

Definition AuthenticateUser (w : World) (clientId : string) (clientToken : list byte)
    : bool :=
  if decide (bytes_Compare (Token (client_record w clientId)) clientToken = 0%Z)
  then true
  else false.

(** The loop [for _, f := range files] of [FetchMessages]. *)
Fixpoint FetchMessages_range (path clientId : string) (files : list string) : IO unit :=
  match files with
  | [] => mret tt
  | f :: rest =>
      dat ← ReadFile path f;
      w ← get;
      let address := Host (client_record w clientId) +:+ ":"
                     +:+ Port (client_record w clientId) in
      _ ← log Info ("Found stored message for address " +:+ address);
      msgBytes ← of_sum (WrapWithFlag COMM_FLAG dat);
      _ ← Send msgBytes address;
      FetchMessages_range path clientId rest
  end.

Definition FetchMessages (clientId : string) : IO string :=
  let path := "./inboxes/" +:+ clientId in
  exist ← DirExists path;
  if bool_decide (exist = false) then mret "NI" else
  files ← ReadDir path;
  if decide (length files = 0) then mret "EI" else
  _ ← FetchMessages_range path clientId files;
  mret "SI".

Definition HandlePullRequest (rqsBytes : list byte) : IO unit :=
  request ← checked (Unmarshal_PullRequest rqsBytes);
  _ ← log Info (" Processing pull request: " +:+ config.ClientId request +:+ " "
                +:+ string_of_list_byte (config.Token request));
  w ← get;
  if AuthenticateUser w (config.ClientId request) (config.Token request) then
    signal ← FetchMessages (config.ClientId request);
    if decide (signal = "NI") then
      log Info "Inbox does not exist. Sending signal to client."
    else if decide (signal = "EI") then
      log Info "Inbox is empty. Sending info to the client."
    else if decide (signal = "SI") then
      log Info "All messages from the inbox succesfuly sent to the client."
    else mret tt
  else
    _ ← log Warning "Authentication went wrong";
    throw (errorString "authentication went wrong").

(** [HandleConnection]: the result lists the values sent on [errs], in
    order.  No branch returns after sending, so a failed read or a failed
    [proto.Unmarshal] is followed by the dispatch on whatever the packet
    holds.  The handler runs in a goroutine of its own; since the channel
    buffers one value and the loop receives one, the first two sends
    never block and the request handler always runs.  The model lets it
    run to its end before the loop goes on. *)
Definition HandleConnection (conn : Conn) (w : World) : list (option error) * World :=
  let buff := take 1024 (conn_Read conn).1 in
  let sent_read := match (conn_Read conn).2 with Some err => [Some err] | None => [] end in
  let '(packet, uerr) := Unmarshal_GeneralPacket buff in
  let sent_unmarshal := match uerr with Some err => [Some err] | None => [] end in
  let run (handler : IO unit) :=
    match handler w with
    | (inl err, w') => ([Some err], w')
    | (inr _, w') => ([], w')
    end in
  let '(sent_switch, w') :=
    if decide (config.Flag packet = ASSIGNE_FLAG) then
      run (HandleAssignRequest (config.Data packet))
    else if decide (config.Flag packet = COMM_FLAG) then
      run (ReceivedPacket (config.Data packet))
    else if decide (config.Flag packet = PULL_FLAG) then
      run (HandlePullRequest (config.Data packet))
    else
      match log Info "Packet flag not recognised. Packet dropped" w with
      | (_, w') => ([None], w')
      end in
  (sent_read ++ sent_unmarshal ++ sent_switch ++ [None], w').

(** One iteration of [ListenForIncomingConnections]; [err = <-errs]
    receives the first value the handler sent.  The iteration is given
    with the handler run to its end before the loop logs and accepts
    again: this is the order of the program whenever the first value
    is sent after the request handler has returned, that is, whenever
    the read and [proto.Unmarshal] succeed.  After a failed read or a
    failed [proto.Unmarshal] the loop has its value while the handler is
    still at work, and the log entry of the loop and the effects of the
    handler come in no fixed order. *)
Definition accept_iteration (a : accepted) (w : World) : loop_status * World :=
  match a with
  | AcceptError err => (Accepting, (log Error (Error_ err) w).2)
  | AcceptConn conn =>
      let w1 := (log Info (" Received new connection from " +:+ RemoteAddr conn) w).2 in
      let '(sent, w2) := HandleConnection conn w1 in
      match head sent with
      | Some (Some err) => (Accepting, (log Error (Error_ err) w2).2)
      | _ => (Accepting, w2)
      end
  end.

Definition ListenForIncomingConnections (incoming : list accepted) (w : World)
    : loop_status * World :=
  accept_loop accept_iteration incoming w.

End provider.

End server.

(** ** Package [client] *)
Module client.

(** An operand of [fmt.Println]. *)
Inductive operand : Type :=
| Str (s : string)
| Bytes (b : list byte).

(** What the client prints: the list of the [fmt.Println] calls made so
    far. *)
Definition Stdout : Type := list (list operand).

Definition ProcessPacket (packet : list byte) (out : Stdout) : list byte * Stdout :=
  (packet, out ++ [[Str "Processing packet: "; Bytes packet]]).

(** [HandleConnection], as one goroutine runs it: what it adds to the
    output, and whether it returns or panics. *)
Definition HandleConnection (conn : Conn) (out : Stdout) : outcome unit * Stdout :=
  let out1 := out ++ [[Str "> Handle Connection"]] in
  match (conn_Read conn).2 with
  | Some err => (Panicked (Error_ err), out1)
  | None =>
      let '(_, out2) := ProcessPacket (take 1024 (conn_Read conn).1) out1 in
      (Returned tt, out2)
  end.

(** The state of the accept loop: what the loop itself has printed, and
    the connections it has handed to a handler. *)
Record Loop : Type := {
  printed : Stdout;
  started : list Conn;
}.

(** One iteration of [ListenForIncomingConnections]: a failed [Accept]
    prints and calls [os.Exit(1)]; otherwise [go c.HandleConnection(conn)]
    starts the handler in a goroutine of its own and the loop goes back
    to [Accept] without waiting for it.  What a started handler prints,
    and whether it panics, is told by [HandleConnection]; when it does
    so relative to the loop is not fixed. *)
Definition accept_iteration (a : accepted) (l : Loop) : loop_status * Loop :=
  match a with
  | AcceptError err =>
      (Exited 1,
       {| printed := printed l
                     ++ [[Str "Error in connection accepting:"; Str (Error_ err)]];
          started := started l |})
  | AcceptConn conn =>
      (Accepting, {| printed := printed l; started := started l ++ [conn] |})
  end.

Definition ListenForIncomingConnections (incoming : list accepted) (l : Loop)
    : loop_status * Loop :=
  accept_loop accept_iteration incoming l.

End client.

(** ** A concrete instance of the library calls

    A small wire format used to run the provider on concrete inputs: a
    client configuration is [id|host], a pull request is [id|token], a
    general packet is its flag character followed by the data, the
    wrapper prefixes the flag, the hash reverses its input and the unwrap
    reads the inner flag from the first byte and routes to a fixed
    hop. *)
Module toy.

Fixpoint split_bar (l : list byte) : list byte * list byte :=
  match l with
  | [] => ([], [])
  | x :: rest =>
      if decide (x = "|"%byte) then ([], rest)
      else let '(before, after) := split_bar rest in (x :: before, after)
  end.

Definition hop : sphinx.Hop :=
  {| sphinx.Id := "bob"; sphinx.Address := "10.0.0.7:9001"; sphinx.PubKey := [] |}.

Definition libraries : Libraries := {|
  Unmarshal_ClientConfig b :=
    let '(id, host) := split_bar b in
    ({| config.Id := string_of_list_byte id; config.Host := string_of_list_byte host;
        config.Port := "9000"; config.PubKey := [] |},
     if decide (b = []) then Some (errorString "unexpected EOF") else None);
  Unmarshal_PullRequest b :=
    let '(id, token) := split_bar b in
    ({| config.ClientId := string_of_list_byte id; config.Token := token |},
     if decide (b = []) then Some (errorString "unexpected EOF") else None);
  Unmarshal_GeneralPacket b :=
    ({| config.Flag := string_of_list_byte (take 1 b); config.Data := drop 1 b |}, None);
  WrapWithFlag flag data := inr (list_byte_of_string flag ++ data);
  MD5Hash b := reverse b;
  ProcessPacket b :=
    (drop 1 b, hop, string_of_list_byte (take 1 b),
     if decide (b = []) then Some (errorString "packet too short") else None);
|}.

(** A stand-in for [rand.Perm]: it ignores the seed and reverses
    [0, n). *)
Definition reversing_Perm (seed : Z) (n : nat) : list nat := reverse (seq 0 n).

(** A provider that has registered nobody and holds no inbox. *)
Definition fresh : server.World :=
  {| server.assignedClients := ∅; server.inboxes := ∅; server.network := [];
     server.logs := []; server.faults := [] |}.

(** The client [bob] is registered and one message waits in his inbox. *)
Definition bob_has_mail : server.World :=
  let registered :=
    (server.RegisterNewClient (H := libraries) (list_byte_of_string "bob|10.0.0.9")
       fresh).2 in
  (server.StoreMessage (list_byte_of_string "hi") "bob" "TMP_MESSAGE_ID" registered).2.

(** Three connections: [bob] registers, then two packets for him reach
    their final hop. *)
Definition two_deliveries : list accepted :=
  [AcceptConn {| RemoteAddr := "10.0.0.9:4000";
                 conn_Read := ([xa2] ++ list_byte_of_string "bob|10.0.0.9", None) |};
   AcceptConn {| RemoteAddr := "10.0.0.3:4000";
                 conn_Read := ([xc6; xf0] ++ list_byte_of_string "first", None) |};
   AcceptConn {| RemoteAddr := "10.0.0.3:4001";
                 conn_Read := ([xc6; xf0] ++ list_byte_of_string "second", None) |}].

(** A failed accept, a connection whose read fails, and a registration. *)
Definition troubled_connections : list accepted :=
  [AcceptError (errorString "accept tcp: too many open files");
   AcceptConn {| RemoteAddr := "10.0.0.4:4000";
                 conn_Read := ([], Some (errorString "read: connection reset by peer")) |};
   AcceptConn {| RemoteAddr := "10.0.0.9:4000";
                 conn_Read := ([xa2] ++ list_byte_of_string "bob|10.0.0.9", None) |}].

End toy.

(** ** Vocabulary of the statements *)

(** [respects R m]: whatever the world and whatever the result, running
    [m] relates the world before to the world after by [R]. *)
Definition respects {A} (R : relation server.World) (m : server.IO A) : Prop :=
  ∀ w, R w (m w).2.

(** The registry and the inbox tree are the same in both worlds. *)
Definition same_store (w w' : server.World) : Prop :=
  server.inboxes w' = server.inboxes w
  ∧ server.assignedClients w' = server.assignedClients w.

(** Every inbox directory holds at most the one file the store path
    writes. *)
Definition single_slot (w : server.World) : Prop :=
  ∀ path dir, server.inboxes w !! path = Some dir →
    dom dir ⊆ {["TMP_MESSAGE_ID.txt"]}.

(** [pkt] is the delivery of the inbox file [name]: the file's contents
    in a [COMM_FLAG] envelope, written to a connection to [address]. *)
Definition delivered `{Libraries} (address : string) (dir : gmap string (list byte))
    (name : string) (pkt : string * list byte) : Prop :=
  pkt.1 = address
  ∧ ∃ dat, dir !! name = Some dat ∧ WrapWithFlag server.COMM_FLAG dat = inr pkt.2.

(** The address a pull delivers to: host and port of the client's
    record. *)
Definition registered_address (w : server.World) (clientId : string) : string :=
  server.Host (server.client_record w clientId) +:+ ":"
  +:+ server.Port (server.client_record w clientId).

(** A step that preserves [single_slot]. *)
Definition keeps_slot (w w' : server.World) : Prop :=
  single_slot w → single_slot w'.

(** The inner flags of a Sphinx packet, as [ReceivedPacket] switches on
    them. *)
Definition RELAY : string := String "241" EmptyString.
Definition FINAL : string := String "240" EmptyString.

(** ** Vocabulary of the further properties *)

(** Every inbox directory of [w] is still there in [w'], with the same
    files and contents. *)
Definition keeps_messages (w w' : server.World) : Prop :=
  ∀ path dir, server.inboxes w !! path = Some dir →
              server.inboxes w' !! path = Some dir.

(** The record [RegisterNewClient] stores for a decoded request. *)
Definition registered_record `{Libraries} (clientConf : config.ClientConfig)
    : server.ClientRecord :=
  {| server.Id := config.Id clientConf; server.Host := config.Host clientConf;
     server.Port := config.Port clientConf; server.PubKey := config.PubKey clientConf;
     server.Token := MD5Hash (list_byte_of_string
                                ("TMP_Token" +:+ config.Id clientConf)) |}.

(** The registry is the same in both worlds, and so is the set of inbox
    directories. *)
Definition keeps_registry (w w' : server.World) : Prop :=
  server.assignedClients w' = server.assignedClients w
  ∧ dom (server.inboxes w') = dom (server.inboxes w).

(** ** Package [client], reading the PKI

    The client fills [ActiveMixes] and [OtherClients] from the PKI
    database at start-up.  The database is reached through the packages
    [pki] and [sqlx]: opening it and querying a table may fail, a query
    yields the rows of the table, scanning a row ([MapScan]) may fail
    and otherwise yields the row as a map from column name to value.  A
    value is a byte slice or something else, of which only the dynamic
    type matters here.  [config.MixPubs] and [config.ClientPubs] are only
    decoded and stored, so they are type parameters, with their
    decoders. *)
Module client_startup.

Inductive cell : Type :=
| Blob (b : list byte)
| NotBlob (dynamic_type : string).

Definition Row : Type := error + gmap string cell.

Definition Database : Type := string → error + list Row.

Section reading.
Context {MixPubs ClientPubs : Type}.
Variable OpenDatabase : string → string → error + Database.
Variable MixPubsFromBytes : list byte → error + MixPubs.
Variable ClientPubsFromBytes : list byte → error + ClientPubs.

(** The fields of [Client] the readers touch. *)
Record Client : Type := {
  ActiveMixes : list MixPubs;
  OtherClients : list ClientPubs;
}.

Definition ConnectToPKI (dbName : string) : error + Database :=
  OpenDatabase dbName "sqlite3".

(** The type assertion [result["Config"].([]byte)]: it panics unless the
    map holds a byte slice under the key. *)
Definition Config_bytes (result : gmap string cell) : outcome (list byte) :=
  match result !! "Config" with
  | Some (Blob b) => Returned b
  | Some (NotBlob dynamic_type) =>
      Panicked ("interface conversion: interface {} is " +:+ dynamic_type
                +:+ ", not []uint8")
  | None => Panicked "interface conversion: interface {} is nil, not []uint8"
  end.

(** The loop [for records.Next() { ... }]: every row is scanned, its
    ["Config"] column decoded and the result appended; any failure
    panics. *)
Fixpoint scan_records {A} (FromBytes : list byte → error + A)
    (records : list Row) (known : list A) : outcome (list A) :=
  match records with
  | [] => Returned known
  | row :: rest =>
      match row with
      | inl err => Panicked (Error_ err)
      | inr result =>
          outcome_bind (Config_bytes result) (λ b,
            match FromBytes b with
            | inl err => Panicked (Error_ err)
            | inr pubs => scan_records FromBytes rest (known ++ [pubs])
            end)
      end
  end.

Definition ReadInMixnetPKI (pkiName : string) (c : Client) (out : client.Stdout)
    : outcome Client * client.Stdout :=
  let out1 := out ++ [[client.Str "Reading network from pki:  "; client.Str pkiName]] in
  match ConnectToPKI pkiName with
  | inl err => (Panicked (Error_ err), out1)
  | inr db =>
      match db "Mixes" with
      | inl err => (Panicked (Error_ err), out1)
      | inr records =>
          match scan_records MixPubsFromBytes records (ActiveMixes c) with
          | Panicked msg => (Panicked msg, out1)
          | Returned mixes =>
              (Returned {| ActiveMixes := mixes; OtherClients := OtherClients c |},
               out1 ++ [[client.Str "> The mix network data is uploaded."]])
          end
      end
  end.

Definition ReadInClientsPKI (pkiName : string) (c : Client) (out : client.Stdout)
    : outcome Client * client.Stdout :=
  let out1 := out ++ [[client.Str "Reading public information about clients"]] in
  match ConnectToPKI pkiName with
  | inl err => (Panicked (Error_ err), out1)
  | inr db =>
      match db "Clients" with
      | inl err => (Panicked (Error_ err), out1)
      | inr records =>
          match scan_records ClientPubsFromBytes records (OtherClients c) with
          | Panicked msg => (Panicked msg, out1)
          | Returned clients =>
              (Returned {| ActiveMixes := ActiveMixes c; OtherClients := clients |},
               out1 ++ [[client.Str "> The clients data is uploaded."]])
          end
      end
  end.

(** A row that the loop gets through, and what it appends. *)
Definition decodes {A} (FromBytes : list byte → error + A) (row : Row) (pubs : A)
    : Prop :=
  ∃ result b, row = inr result ∧ result !! "Config" = Some (Blob b)
              ∧ FromBytes b = inr pubs.

End reading.
End client_startup.

(** A small PKI database to run the readers on: two mixes and one
    client, with identifiers standing for the decoded records. *)
Module toy_pki.

Definition FromBytes (b : list byte) : error + string :=
  if decide (b = []) then inl (errorString "unexpected EOF")
  else inr (string_of_list_byte b).

Definition row (id : string) : client_startup.Row :=
  inr {[ "Id" := client_startup.NotBlob "string";
         "Config" := client_startup.Blob (list_byte_of_string id) ]}.

Definition database : client_startup.Database := λ table,
  if decide (table = "Mixes") then inr [row "mix1"; row "mix2"]
  else if decide (table = "Clients") then inr [row "alice"]
  else inl (errorString "no such table").

Definition OpenDatabase (dbName driver : string) : error + client_startup.Database :=
  if decide (dbName = "pki.db") then inr database
  else inl (errorString "unable to open database file").

Definition empty_client : client_startup.Client (MixPubs := string) (ClientPubs := string) :=
  {| client_startup.ActiveMixes := []; client_startup.OtherClients := [] |}.

End toy_pki.

(** ** Package [server], constructing the provider

    [NewProviderServer] builds the provider value, publishes its public
    configuration in the PKI database, resolves its address and starts
    listening.  [node.Mix] and [config.MixConfig] are declared in
    packages that are not among the sources; the records carry the
    fields the constructor sets. *)
Module server_startup.

Record Mix : Type := {
  Id : string;
  PubKey : list byte;
  PrvKey : list byte;
}.

Record MixConfig : Type := {
  Config_Id : string;
  Config_Host : string;
  Config_Port : string;
  Config_PubKey : list byte;
}.

Record ProviderServer : Type := {
  Host : string;
  Port : string;
  node_Mix : Mix;
  listener : option string;
  assignedClients : gmap string server.ClientRecord;
  Config : MixConfig;
}.

(** What the constructor acts on: the rows written to PKI databases
    (database path, table, id, type, configuration bytes), the addresses
    listened on, and the faults pending for the next operations, as in
    [server.World]. *)
Record Outside : Type := {
  pki_rows : list (string * string * string * string * list byte);
  listening : list string;
  pending : list (option error);
}.

Definition Boot (A : Type) : Type := Outside → (error + A) * Outside.

(** One operation of the constructor: it fails when the head of
    [pending] says so, and otherwise runs [op]. *)
Definition boot_io {A} (op : Outside → A * Outside) : Boot A := λ o,
  match pending o with
  | Some e :: rest =>
      (inl e, {| pki_rows := pki_rows o; listening := listening o; pending := rest |})
  | None :: rest =>
      let '(a, o') := op {| pki_rows := pki_rows o; listening := listening o;
                            pending := rest |} in (inr a, o')
  | [] => let '(a, o') := op o in (inr a, o')
  end.

(** Modelled from the spec: [helpers.AddToDatabase] is declared in a file
    of package [helpers] that is not among the sources.  The PKI is a
    keyed blob table; the call adds the row it is given to the table of
    the database at [pkiPath], or fails. *)
Definition AddToDatabase (pkiPath table id typ : string) (config : list byte)
    : Boot unit :=
  boot_io (λ o, (tt, {| pki_rows := pki_rows o ++ [(pkiPath, table, id, typ, config)];
                        listening := listening o; pending := pending o |})).

(** [helpers.ResolveTCPAddress]: [net.ResolveTCPAddr] of [host:port];
    the resolved address is written as that string. *)
Definition ResolveTCPAddress (host port : string) : Boot string :=
  boot_io (λ o, (host +:+ ":" +:+ port, o)).

(** [net.ListenTCP]. *)
Definition ListenTCP (addr : string) : Boot string :=
  boot_io (λ o, (addr, {| pki_rows := pki_rows o; listening := listening o ++ [addr];
                          pending := pending o |})).

Section constructor.
(** [proto.Marshal] of the configuration. *)
Variable Marshal : MixConfig → error + list byte.

Definition NewProviderServer (id host port : string) (pubKey prvKey : list byte)
    (pkiPath : string) : Boot ProviderServer := λ o,
  let node := {| Id := id; PubKey := pubKey; PrvKey := prvKey |} in
  let config := {| Config_Id := Id node; Config_Host := host; Config_Port := port;
                   Config_PubKey := PubKey node |} in
  match Marshal config with
  | inl err => (inl err, o)
  | inr configBytes =>
      match AddToDatabase pkiPath "Pki" (Id node) "Provider" configBytes o with
      | (inl err, o1) => (inl err, o1)
      | (inr _, o1) =>
          match ResolveTCPAddress host port o1 with
          | (inl err, o2) => (inl err, o2)
          | (inr addr, o2) =>
              match ListenTCP addr o2 with
              | (inl err, o3) => (inl err, o3)
              | (inr l, o3) =>
                  (inr {| Host := host; Port := port; node_Mix := node;
                          listener := Some l; assignedClients := ∅;
                          Config := config |}, o3)
              end
          end
      end
  end.

End constructor.
End server_startup.

(** * Properties *)

(** ** Path sampling *)
Section sampling_facts.
Context {MixPubs : Type} (zeroMixPubs : MixPubs).
Variable rand_Perm : Z → nat → list nat.

(** *** The permutation loop *)

Lemma Permute_range_length i permutation (slice data out : list MixPubs) :
  helpers.Permute_range i permutation slice data = Returned out →
  length out = length data.
Proof.
  revert i data. induction permutation as [|v rest IH]; intros i data; simpl.
  - by intros [= ->].
  - destruct (slice !! i) as [x|]; [|done].
    case_decide; [|done]. intros Hrun%IH. by rewrite length_insert in Hrun.
Qed.

(** Within range and with in-range targets the loop does not panic. *)
Lemma Permute_range_returns i permutation (slice data : list MixPubs) :
  i + length permutation ≤ length slice →
  Forall (λ v, v < length data) permutation →
  ∃ out, helpers.Permute_range i permutation slice data = Returned out.
Proof.
  revert i data. induction permutation as [|v rest IH]; intros i data Hi Hv; simpl.
  - eauto.
  - simpl in Hi. destruct (lookup_lt_is_Some_2 slice i) as [x Hx]; [lia|].
    rewrite Hx. apply Forall_cons in Hv as [Hv Hrest].
    rewrite decide_True by done.
    apply IH; [lia|]. by rewrite length_insert.
Qed.

(** A cell that no later iteration targets keeps its value. *)
Lemma Permute_range_untouched i permutation (slice data out : list MixPubs) j :
  helpers.Permute_range i permutation slice data = Returned out →
  j ∉ permutation → out !! j = data !! j.
Proof.
  revert i data. induction permutation as [|v rest IH]; intros i data; simpl.
  - by intros [= ->].
  - destruct (slice !! i) as [x|]; [|done].
    case_decide; [|done]. intros Hrun Hj.
    apply not_elem_of_cons in Hj as [Hjv Hj].
    rewrite (IH _ _ Hrun Hj). by apply list_lookup_insert_ne.
Qed.

(** With pairwise distinct targets, the cell targeted by iteration
    [i + k] ends up holding [slice[i + k]]. *)
Lemma Permute_range_written i permutation (slice data out : list MixPubs) k v :
  helpers.Permute_range i permutation slice data = Returned out →
  NoDup permutation → permutation !! k = Some v →
  out !! v = slice !! (i + k).
Proof.
  revert i data k. induction permutation as [|v' rest IH]; intros i data k; simpl.
  - done.
  - destruct (slice !! i) as [x|] eqn:Hx; [|done].
    case_decide as Hlt; [|done]. intros Hrun Hnd Hk.
    apply NoDup_cons in Hnd as [Hnotin Hnd].
    destruct k as [|k]; simpl in Hk.
    + injection Hk as ->.
      rewrite (Permute_range_untouched _ _ _ _ _ _ Hrun Hnotin).
      rewrite list_lookup_insert_eq by done. by rewrite Nat.add_0_r.
    + rewrite (IH _ _ _ Hrun Hnd Hk). f_equal. lia.
Qed.

(** *** [Permute] and [RandomSample] *)

(** When [rand.Perm] yields a permutation of [0, n), [Permute] returns
    a rearrangement of its argument. *)
Lemma Permute_Permutation now (slice : list MixPubs) :
  rand_Perm now (length slice) ≡ₚ seq 0 (length slice) →
  ∃ permuted, helpers.Permute zeroMixPubs rand_Perm now slice = Returned permuted
              ∧ permuted ≡ₚ slice.
Proof.
  intros Hperm. unfold helpers.Permute.
  set (perm := rand_Perm now (length slice)) in *.
  set (n := length slice) in *.
  assert (Hlen : length perm = n) by (by rewrite Hperm, length_seq).
  assert (Hnd : NoDup perm) by (rewrite Hperm; apply NoDup_seq).
  assert (Hrange : Forall (λ v, v < length (replicate n zeroMixPubs)) perm).
  { rewrite length_replicate. apply Forall_forall. intros v Hv.
    rewrite Hperm in Hv. apply elem_of_seq in Hv. lia. }
  destruct (Permute_range_returns 0 perm slice (replicate n zeroMixPubs))
    as [out Hrun]; [lia | done |].
  exists out. split; [done|].
  pose proof (Permute_range_length _ _ _ _ _ Hrun) as Hout.
  rewrite length_replicate in Hout.
  set (cell := λ v, default zeroMixPubs (out !! v)).
  assert (Hslice : slice = cell <$> perm).
  { apply list_eq. intros k. rewrite list_lookup_fmap.
    destruct (perm !! k) as [v|] eqn:Hk; simpl.
    - unfold cell.
      rewrite (Permute_range_written _ _ _ _ _ _ _ Hrun Hnd Hk). simpl.
      apply lookup_lt_Some in Hk.
      destruct (lookup_lt_is_Some_2 slice k) as [x Hx]; [lia|]. by rewrite Hx.
    - apply lookup_ge_None. apply lookup_ge_None in Hk. lia. }
  assert (Hcells : out = cell <$> seq 0 n).
  { apply list_eq. intros k. rewrite list_lookup_fmap.
    destruct (decide (k < n)) as [Hlt|Hge].
    - rewrite lookup_seq_lt by done. simpl. unfold cell.
      destruct (lookup_lt_is_Some_2 out k) as [x Hx]; [lia|]. by rewrite Hx.
    - rewrite lookup_seq_ge by lia. simpl. apply lookup_ge_None. lia. }
  rewrite Hcells, Hslice. by rewrite Hperm.
Qed.

(** [Permute] never changes the number of elements. *)
Lemma Permute_length now (slice permuted : list MixPubs) :
  helpers.Permute zeroMixPubs rand_Perm now slice = Returned permuted →
  length permuted = length slice.
Proof.
  unfold helpers.Permute. intros Hrun%Permute_range_length.
  by rewrite length_replicate in Hrun.
Qed.

(** Asking for more elements than there are panics, whatever
    [rand.Perm] returned. *)
Lemma RandomSample_too_long_panics now (slice : list MixPubs) (L : Z) :
  (Z.of_nat (length slice) < L)%Z →
  ∃ msg, helpers.RandomSample zeroMixPubs rand_Perm now slice L = Panicked msg.
Proof.
  intros HL. unfold helpers.RandomSample.
  destruct (helpers.Permute _ _ _ _) as [permuted|msg] eqn:Hp; simpl; [|eauto].
  apply Permute_length in Hp. rewrite decide_False by lia. eauto.
Qed.

(** C7 (as the code has it): when [rand.Perm] yields permutations,
    [RandomSample mixes L] with [0 <= L <= |mixes|] returns [L] elements
    taken from pairwise different positions of [mixes] (so they are
    pairwise distinct when the mixes are); with [|mixes| < L] there is no
    error result: the slice expression [permuted[:L]] is out of range and
    the call panics. *)
Theorem RandomSample_distinct_or_panics now (mixes : list MixPubs) (L : Z) :
  (∀ seed n, rand_Perm seed n ≡ₚ seq 0 n) →
  ((0 ≤ L ≤ Z.of_nat (length mixes))%Z →
     ∃ sample rest,
       helpers.RandomSample zeroMixPubs rand_Perm now mixes L = Returned sample
       ∧ Z.of_nat (length sample) = L
       ∧ sample ++ rest ≡ₚ mixes
       ∧ (NoDup mixes → NoDup sample))
  ∧ ((Z.of_nat (length mixes) < L)%Z →
     helpers.RandomSample zeroMixPubs rand_Perm now mixes L
     = Panicked "slice bounds out of range").
Proof.
  intros Hrand.
  destruct (Permute_Permutation now mixes (Hrand _ _)) as (permuted & Hp & Hperm).
  pose proof (Permute_length _ _ _ Hp) as Hlen.
  unfold helpers.RandomSample. rewrite Hp. simpl. split; intros HL.
  - rewrite decide_True by lia.
    exists (take (Z.to_nat L) permuted), (drop (Z.to_nat L) permuted).
    split; [done|]. split; [rewrite length_take; lia|].
    split; [by rewrite take_drop|].
    intros Hnd. rewrite <- Hperm, <- (take_drop (Z.to_nat L) permuted) in Hnd.
    by apply NoDup_app in Hnd as (? & _ & _).
  - by rewrite decide_False by lia.
Qed.

End sampling_facts.

Lemma reversing_Perm_permutation seed n : toy.reversing_Perm seed n ≡ₚ seq 0 n.
Proof. apply reverse_Permutation. Qed.

Lemma RandomSample_distinct_or_panics_witness :
  (∃ sample rest,
     helpers.RandomSample "" toy.reversing_Perm 7 ["m1"; "m2"; "m3"] 2 = Returned sample
     ∧ Z.of_nat (length sample) = 2%Z
     ∧ sample ++ rest ≡ₚ ["m1"; "m2"; "m3"]
     ∧ (NoDup ["m1"; "m2"; "m3"] → NoDup sample))
  ∧ helpers.RandomSample "" toy.reversing_Perm 7 ["m1"; "m2"] 3
    = Panicked "slice bounds out of range".
Proof.
  split.
  - apply (RandomSample_distinct_or_panics "" toy.reversing_Perm 7 ["m1"; "m2"; "m3"] 2
             reversing_Perm_permutation). simpl. lia.
  - apply (RandomSample_distinct_or_panics "" toy.reversing_Perm 7 ["m1"; "m2"] 3
             reversing_Perm_permutation). simpl. lia.
Defined.

(** C7 (as stated) fails: asking for two mixes out of one panics instead
    of returning an error value. *)
Lemma RandomSample_short_list_panics :
  helpers.RandomSample "" toy.reversing_Perm 7 ["m1"] 2
  = Panicked "slice bounds out of range"
  ∧ ¬ ∃ sample, helpers.RandomSample "" toy.reversing_Perm 7 ["m1"] 2 = Returned sample.
Proof. split; [reflexivity|]. intros [sample Hs]. vm_compute in Hs. discriminate. Qed.

(** ** Token authentication *)
Section authentication.
Context `{Libraries}.

Lemma bytes_Compare_eq (a b : list byte) : bytes_Compare a b = 0%Z ↔ a = b.
Proof.
  revert b. induction a as [|x a IH]; intros [|y b]; simpl;
    [tauto | split; discriminate | split; discriminate |].
  destruct (N.compare_spec (Byte.to_N x) (Byte.to_N y)) as [Heq|Hlt|Hgt].
  - apply (f_equal Byte.of_N) in Heq. rewrite !Byte.of_to_N in Heq.
    injection Heq as ->. rewrite IH. split; [by intros ->|by intros [= ->]].
  - split; [done|]. intros [= -> _]. lia.
  - split; [done|]. intros [= -> _]. lia.
Qed.

(** [AuthenticateUser] is equality with the stored token. *)
Lemma AuthenticateUser_spec (w : server.World) clientId clientToken :
  server.AuthenticateUser w clientId clientToken = true
  ↔ server.Token (server.client_record w clientId) = clientToken.
Proof.
  unfold server.AuthenticateUser. rewrite <- bytes_Compare_eq.
  case_decide; naive_solver.
Qed.

(** C3: a client id that was never registered authenticates with the
    empty token: the absent record is the zero record, whose token is
    the empty byte string. *)
Theorem AuthenticateUser_unregistered_empty_token (w : server.World) clientId :
  server.assignedClients w !! clientId = None →
  server.AuthenticateUser w clientId [] = true.
Proof.
  intros Habsent. apply AuthenticateUser_spec.
  unfold server.client_record. by rewrite Habsent.
Qed.

End authentication.

Lemma AuthenticateUser_unregistered_empty_token_witness :
  server.AuthenticateUser toy.fresh "mallory" [] = true.
Proof.
  apply (AuthenticateUser_unregistered_empty_token toy.fresh "mallory").
  reflexivity.
Defined.

(** ** Reasoning about [IO] computations *)
Section respects_facts.
Context `{Libraries}.
Context (R : relation server.World) `{!PreOrder R}.

Lemma respects_ret {A} (a : A) : respects R (mret a : server.IO A).
Proof. intros w. reflexivity. Qed.

Lemma respects_bind {A B} (m : server.IO A) (k : A → server.IO B) :
  respects R m → (∀ a, respects R (k a)) → respects R (m ≫= k).
Proof.
  intros Hm Hk w. unfold mbind, server.IO_bind. specialize (Hm w).
  destruct (m w) as [[e|a] w']; simpl in *; [done|].
  by etrans; [|apply Hk].
Qed.

Lemma respects_throw {A} e : respects R (server.throw e : server.IO A).
Proof. intros w. reflexivity. Qed.

Lemma respects_of_sum {A} (r : error + A) : respects R (server.of_sum r).
Proof. intros w. reflexivity. Qed.

Lemma respects_checked {A} (r : A * option error) : respects R (server.checked r).
Proof. intros w. unfold server.checked. destruct r.2; reflexivity. Qed.

Lemma respects_get : respects R server.get.
Proof. intros w. reflexivity. Qed.

Lemma respects_modify f : (∀ w, R w (f w)) → respects R (server.modify f).
Proof. intros Hf w. apply Hf. Qed.

(** From here on [R] does not look at the log, at the pending faults or
    at the network. *)
Hypothesis R_logs : ∀ f w, R w (server.set_logs f w).
Hypothesis R_faults : ∀ f w, R w (server.set_faults f w).
Hypothesis R_network : ∀ f w, R w (server.set_network f w).

Lemma respects_log level msg : respects R (server.log level msg).
Proof. apply respects_modify. intros w. apply R_logs. Qed.

Lemma respects_io {A} (op : server.IO A) : respects R op → respects R (server.io op).
Proof.
  intros Hop w. unfold server.io.
  destruct (server.faults w) as [|[e|] rest]; simpl.
  - apply Hop.
  - apply R_faults.
  - etrans; [apply (R_faults (λ _, rest))|apply Hop].
Qed.

Lemma respects_DirExists path : respects R (server.DirExists path).
Proof. apply respects_io. intros w. reflexivity. Qed.

Lemma respects_ReadDir path : respects R (server.ReadDir path).
Proof.
  apply respects_io. intros w. simpl.
  destruct (server.inboxes w !! path); reflexivity.
Qed.

Lemma respects_ReadFile path name : respects R (server.ReadFile path name).
Proof.
  apply respects_io. intros w. simpl.
  destruct (server.inboxes w !! path ≫= _); reflexivity.
Qed.

Lemma respects_Send packet address : respects R (server.Send packet address).
Proof.
  apply respects_bind.
  - apply respects_io, respects_ret.
  - intros conn w. unfold server.conn_Write.
    pose proof (respects_io _ (respects_modify _
      (R_network (λ n, n ++ [(conn, packet)]))) w) as Hw.
    by destruct (server.io _ w).
Qed.

Lemma respects_ForwardPacket packet address :
  respects R (server.ForwardPacket packet address).
Proof.
  apply respects_bind; [apply respects_of_sum|]. intros packetBytes.
  apply respects_bind; [apply respects_Send|]. intros _. apply respects_log.
Qed.

Lemma respects_FetchMessages_range path clientId files :
  respects R (server.FetchMessages_range path clientId files).
Proof.
  induction files as [|f rest IH]; simpl; [apply respects_ret|].
  apply respects_bind; [apply respects_ReadFile|]. intros dat.
  apply respects_bind; [apply respects_get|]. intros w.
  apply respects_bind; [apply respects_log|]. intros _.
  apply respects_bind; [apply respects_of_sum|]. intros msgBytes.
  apply respects_bind; [apply respects_Send|]. intros _. apply IH.
Qed.

Lemma respects_FetchMessages clientId : respects R (server.FetchMessages clientId).
Proof.
  apply respects_bind; [apply respects_DirExists|]. intros exist.
  case_bool_decide; [apply respects_ret|].
  apply respects_bind; [apply respects_ReadDir|]. intros files.
  case_decide; [apply respects_ret|].
  apply respects_bind; [apply respects_FetchMessages_range|]. intros _.
  apply respects_ret.
Qed.

Lemma respects_HandlePullRequest rqsBytes :
  respects R (server.HandlePullRequest rqsBytes).
Proof.
  apply respects_bind; [apply respects_checked|]. intros request.
  apply respects_bind; [apply respects_log|]. intros _.
  apply respects_bind; [apply respects_get|]. intros w.
  destruct (server.AuthenticateUser _ _ _).
  - apply respects_bind; [apply respects_FetchMessages|]. intros signal.
    repeat case_decide; first [apply respects_log | apply respects_ret].
  - apply respects_bind; [apply respects_log|]. intros _. apply respects_throw.
Qed.

End respects_facts.

(** With no fault pending an operation just runs. *)
Lemma io_no_faults {A} (op : server.IO A) (w : server.World) :
  server.faults w = [] → server.io op w = op w.
Proof. intros Hf. unfold server.io. by rewrite Hf. Qed.

(** [Send] when neither the dial nor the write fails. *)
Lemma Send_no_faults packet address (w : server.World) :
  server.faults w = [] →
  server.Send packet address w
  = (inr tt, server.set_network (λ n, n ++ [(address, packet)]) w).
Proof.
  intros Hf. unfold server.Send.
  unfold mbind, server.IO_bind, server.Dial, server.conn_Write.
  rewrite io_no_faults by done. simpl. by rewrite io_no_faults by done.
Qed.


(** ** Registration *)
Section registration.
Context `{Libraries}.

(** Once the request is decoded, the record is stored under the client's
    id with the token derived from that id, also when creating the inbox
    directory fails afterwards. *)
Lemma RegisterNewClient_record clientBytes (w : server.World) :
  let clientConf := (Unmarshal_ClientConfig clientBytes).1 in
  let token := MD5Hash (list_byte_of_string ("TMP_Token" +:+ config.Id clientConf)) in
  (Unmarshal_ClientConfig clientBytes).2 = None →
  server.assignedClients (server.RegisterNewClient clientBytes w).2
  = <[config.Id clientConf :=
        {| server.Id := config.Id clientConf; server.Host := config.Host clientConf;
           server.Port := config.Port clientConf;
           server.PubKey := config.PubKey clientConf; server.Token := token |}]>
      (server.assignedClients w).
Proof.
  intros clientConf token Hdecoded.
  unfold server.RegisterNewClient, server.checked. rewrite Hdecoded.
  unfold mbind, mret, server.IO_bind, server.IO_ret, server.DirExists,
    server.MkdirAll, server.io, server.modify. simpl.
  repeat (case_match; simplify_eq/=); done.
Qed.

(** A successful registration returns the token derived from the id. *)
Lemma RegisterNewClient_token clientBytes (w w' : server.World) token address :
  server.RegisterNewClient clientBytes w = (inr (token, address), w') →
  (Unmarshal_ClientConfig clientBytes).2 = None
  ∧ token = MD5Hash (list_byte_of_string
              ("TMP_Token" +:+ config.Id (Unmarshal_ClientConfig clientBytes).1)).
Proof.
  unfold server.RegisterNewClient, server.checked.
  unfold mbind, mret, server.IO_bind, server.IO_ret, server.DirExists,
    server.MkdirAll, server.io, server.modify, server.throw.
  destruct (Unmarshal_ClientConfig clientBytes).2; simpl; [done|].
  intros Hrun. split; [done|].
  repeat (case_match; simplify_eq/=); done.
Qed.

(** C1 (what the code does): the token is a function of the client id
    alone, so registering an id a second time returns the token of the
    first registration, and that first token still authenticates. *)
Theorem reregistration_returns_same_token (w w1 w2 : server.World)
    bytes1 bytes2 token1 address1 token2 address2 :
  config.Id (Unmarshal_ClientConfig bytes1).1
  = config.Id (Unmarshal_ClientConfig bytes2).1 →
  server.RegisterNewClient bytes1 w = (inr (token1, address1), w1) →
  server.RegisterNewClient bytes2 w1 = (inr (token2, address2), w2) →
  token2 = token1
  ∧ server.AuthenticateUser w2 (config.Id (Unmarshal_ClientConfig bytes1).1) token1
    = true.
Proof.
  intros Hid Hfirst Hsecond.
  destruct (RegisterNewClient_token _ _ _ _ _ Hfirst) as [_ ->].
  destruct (RegisterNewClient_token _ _ _ _ _ Hsecond) as [Hdecoded ->].
  split; [by rewrite Hid|].
  apply AuthenticateUser_spec. unfold server.client_record.
  pose proof (RegisterNewClient_record bytes2 w1 Hdecoded) as Hrecord.
  rewrite Hsecond in Hrecord. simpl in Hrecord.
  rewrite Hrecord, Hid, lookup_insert_eq. done.
Qed.

(** [RegisterNewClient] when no input/output operation fails: the record
    is stored and the inbox directory exists afterwards. *)
Lemma RegisterNewClient_no_faults clientBytes (w : server.World) :
  let clientConf := (Unmarshal_ClientConfig clientBytes).1 in
  let token := MD5Hash (list_byte_of_string ("TMP_Token" +:+ config.Id clientConf)) in
  let path := "./inboxes/" +:+ config.Id clientConf in
  server.faults w = [] →
  (Unmarshal_ClientConfig clientBytes).2 = None →
  ∃ w', server.RegisterNewClient clientBytes w
        = (inr (token, config.Host clientConf +:+ ":" +:+ config.Port clientConf), w')
    ∧ server.network w' = server.network w
    ∧ server.logs w' = server.logs w
    ∧ server.faults w' = []
    ∧ is_Some (server.inboxes w' !! path).
Proof.
  intros clientConf token path Hf Hdecoded.
  unfold server.RegisterNewClient, server.checked. rewrite Hdecoded.
  unfold mbind, mret, server.IO_bind, server.IO_ret, server.modify,
    server.DirExists. simpl.
  rewrite io_no_faults by done. simpl. fold clientConf path.
  case_bool_decide as Hexists; simpl.
  - unfold server.MkdirAll. rewrite io_no_faults by done. simpl.
    eexists. split; [reflexivity|]. simpl. repeat split; [done|].
    destruct (server.inboxes w !! path); [done|]. by rewrite lookup_insert_eq.
  - eexists. split; [reflexivity|]. simpl. repeat split; [done|].
    by destruct (server.inboxes w !! path).
Qed.

(** C5 (what the code does): [ASSIGNE_FLAG], [COMM_FLAG] and [PULL_FLAG]
    are the single bytes 0xA2, 0xC6 and 0xFF, but [TOKEN_FLAG] is the
    three characters [x], [A], [9] and not the byte 0xA9, and that is the
    flag the token envelope of a registration is wrapped with. *)
Theorem TOKEN_FLAG_is_three_characters :
  list_byte_of_string server.ASSIGNE_FLAG = [xa2]
  ∧ list_byte_of_string server.COMM_FLAG = [xc6]
  ∧ list_byte_of_string server.PULL_FLAG = [xff]
  ∧ list_byte_of_string server.TOKEN_FLAG = [x78; x41; x39]
  ∧ list_byte_of_string server.TOKEN_FLAG ≠ [xa9]
  ∧ ∀ packet (w : server.World) tokenBytes,
      let clientConf := (Unmarshal_ClientConfig packet).1 in
      let token := MD5Hash (list_byte_of_string
                              ("TMP_Token" +:+ config.Id clientConf)) in
      server.faults w = [] →
      (Unmarshal_ClientConfig packet).2 = None →
      WrapWithFlag "xA9" token = inr tokenBytes →
      server.network (server.HandleAssignRequest packet w).2
      = server.network w
        ++ [(config.Host clientConf +:+ ":" +:+ config.Port clientConf, tokenBytes)].
Proof.
  do 5 (split; [done|]).
  intros packet w tokenBytes clientConf token Hf Hdecoded Hwrap.
  unfold server.HandleAssignRequest.
  unfold mbind, server.IO_bind, server.log, server.modify. simpl.
  destruct (RegisterNewClient_no_faults packet
              (server.set_logs (λ l, l ++ [(server.Info,
                 "Received assign request from the client")]) w) Hf Hdecoded)
    as (w' & -> & Hnet & _ & Hf' & _).
  fold clientConf token. unfold server.TOKEN_FLAG, server.of_sum. rewrite Hwrap.
  rewrite Send_no_faults by done. simpl. by rewrite Hnet.
Qed.

End registration.

Section registration_examples.
Local Existing Instance toy.libraries.

Lemma reregistration_returns_same_token_witness :
  let bytes1 := list_byte_of_string "alice|10.0.0.5" in
  let bytes2 := list_byte_of_string "alice|10.0.0.6" in
  let first := server.RegisterNewClient bytes1 toy.fresh in
  let second := server.RegisterNewClient bytes2 first.2 in
  ∃ token1 address1 token2 address2,
    first.1 = inr (token1, address1) ∧ second.1 = inr (token2, address2)
    ∧ address1 ≠ address2
    ∧ token2 = token1
    ∧ server.AuthenticateUser second.2 "alice" token1 = true.
Proof.
  intros bytes1 bytes2 first second.
  exists (list_byte_of_string "ecilanekoT_PMT"), "10.0.0.5:9000",
    (list_byte_of_string "ecilanekoT_PMT"), "10.0.0.6:9000".
  split; [reflexivity|]. split; [reflexivity|]. split; [discriminate|].
  exact (reregistration_returns_same_token toy.fresh first.2 second.2 bytes1 bytes2
           (list_byte_of_string "ecilanekoT_PMT") "10.0.0.5:9000"
           (list_byte_of_string "ecilanekoT_PMT") "10.0.0.6:9000"
           eq_refl eq_refl eq_refl).
Defined.

Lemma TOKEN_FLAG_is_three_characters_witness :
  server.HandleAssignRequest (list_byte_of_string "alice|10.0.0.5") toy.fresh
  = (inr tt,
     {| server.assignedClients :=
          {[ "alice" := {| server.Id := "alice"; server.Host := "10.0.0.5";
                           server.Port := "9000"; server.PubKey := [];
                           server.Token := list_byte_of_string "ecilanekoT_PMT" |} ]};
        server.inboxes := {[ "./inboxes/alice" := ∅ ]};
        server.network :=
          [("10.0.0.5:9000", [x78; x41; x39] ++ list_byte_of_string "ecilanekoT_PMT")];
        server.logs := [(server.Info, "Received assign request from the client")];
        server.faults := [] |})
  ∧ server.network
      (server.HandleAssignRequest (list_byte_of_string "alice|10.0.0.5") toy.fresh).2
    = server.network toy.fresh
      ++ [("10.0.0.5:9000", [x78; x41; x39] ++ list_byte_of_string "ecilanekoT_PMT")].
Proof.
  split; [vm_compute; reflexivity|].
  exact (proj2 (proj2 (proj2 (proj2 (proj2 TOKEN_FLAG_is_three_characters))))
           (list_byte_of_string "alice|10.0.0.5") toy.fresh
           ([x78; x41; x39] ++ list_byte_of_string "ecilanekoT_PMT")
           eq_refl eq_refl eq_refl).
Defined.

End registration_examples.

(** ** Pull requests *)
Section pull.
Context `{Libraries}.

Lemma same_store_preorder : PreOrder same_store.
Proof.
  split.
  - by intros w.
  - intros w1 w2 w3 [Hi12 Hc12] [Hi23 Hc23]. split; congruence.
Qed.

(** C4 (as the code has it): a pull request whose token fails
    authentication is answered with the error "authentication went
    wrong", returned to the connection handler; the inbox is not read,
    no input/output operation is attempted and nothing is written to the
    network. *)
Theorem HandlePullRequest_authentication_failure (w : server.World) rqsBytes :
  let request := (Unmarshal_PullRequest rqsBytes).1 in
  (Unmarshal_PullRequest rqsBytes).2 = None →
  server.AuthenticateUser w (config.ClientId request) (config.Token request) = false →
  ∃ w', server.HandlePullRequest rqsBytes w
        = (inl (errorString "authentication went wrong"), w')
    ∧ server.network w' = server.network w
    ∧ server.inboxes w' = server.inboxes w
    ∧ server.assignedClients w' = server.assignedClients w
    ∧ server.faults w' = server.faults w
    ∧ server.logs w'
      = server.logs w
        ++ [(server.Info, " Processing pull request: " +:+ config.ClientId request
                          +:+ " " +:+ string_of_list_byte (config.Token request));
            (server.Warning, "Authentication went wrong")].
Proof.
  intros request Hdecoded Hauth.
  unfold server.HandlePullRequest, server.checked. rewrite Hdecoded.
  unfold mbind, mret, server.IO_bind, server.IO_ret, server.log, server.modify,
    server.get, server.throw. simpl.
  change (server.AuthenticateUser (server.set_logs ?f w)) with (server.AuthenticateUser w).
  fold request. rewrite Hauth. simpl.
  eexists. split; [reflexivity|]. simpl. by rewrite <- app_assoc.
Qed.

(** *** Pulls when no input/output operation fails *)

(** One iteration of the delivery loop. *)
Lemma FetchMessages_range_cons path clientId f rest (w : server.World) dir :
  server.faults w = [] → server.inboxes w !! path = Some dir →
  server.FetchMessages_range path clientId (f :: rest) w
  = match dir !! f with
    | None => (inl (errorString ("open " +:+ path +:+ "/" +:+ f
                                  +:+ ": no such file or directory")), w)
    | Some dat =>
        let w1 := server.set_logs (λ l, l ++ [(server.Info,
                    "Found stored message for address "
                    +:+ registered_address w clientId)]) w in
        match WrapWithFlag server.COMM_FLAG dat with
        | inl e => (inl e, w1)
        | inr msgBytes =>
            server.FetchMessages_range path clientId rest
              (server.set_network
                 (λ n, n ++ [(registered_address w clientId, msgBytes)]) w1)
        end
    end.
Proof.
  intros Hf Hdir. simpl.
  unfold mbind at 1. unfold server.IO_bind at 1.
  unfold server.ReadFile. rewrite io_no_faults by done. rewrite Hdir. simpl.
  destruct (dir !! f) as [dat|]; [|done].
  unfold mbind, server.IO_bind, server.get, server.log, server.modify,
    server.of_sum, server.Send, server.Dial, server.conn_Write. simpl.
  fold (registered_address w clientId).
  destruct (WrapWithFlag server.COMM_FLAG dat) as [e|msgBytes]; [done|].
  unfold mbind, server.IO_bind.
  rewrite io_no_faults by done. simpl.
  by rewrite io_no_faults by done.
Qed.

Lemma FetchMessages_range_no_faults path clientId files (w w' : server.World) dir :
  server.faults w = [] → server.inboxes w !! path = Some dir →
  server.FetchMessages_range path clientId files w = (inr tt, w') →
  server.faults w' = [] ∧ same_store w w'
  ∧ ∃ sent, server.network w' = server.network w ++ sent
            ∧ Forall2 (delivered (registered_address w clientId) dir) files sent.
Proof.
  revert w. induction files as [|f rest IH]; intros w Hf Hdir.
  - intros [= <-]. repeat split; [done|]. exists []. by rewrite app_nil_r.
  - rewrite (FetchMessages_range_cons _ _ _ _ _ dir) by done.
    destruct (dir !! f) as [dat|] eqn:Hdat; [|done]. simpl.
    destruct (WrapWithFlag server.COMM_FLAG dat) as [e|msgBytes] eqn:Hwrap; [done|].
    intros Hrun. apply IH in Hrun as (Hf' & [Hi Hc] & sent & Hnet & Hsent); [|done..].
    split; [done|]. split; [done|].
    exists ((registered_address w clientId, msgBytes) :: sent). split.
    + rewrite Hnet. simpl. by rewrite <- app_assoc.
    + constructor; [|done]. split; [done|]. eauto.
Qed.

Lemma FetchMessages_range_returns path clientId files (w : server.World) dir :
  server.faults w = [] → server.inboxes w !! path = Some dir →
  Forall (λ f, ∃ dat pkt, dir !! f = Some dat
                          ∧ WrapWithFlag server.COMM_FLAG dat = inr pkt) files →
  ∃ w', server.FetchMessages_range path clientId files w = (inr tt, w').
Proof.
  revert w. induction files as [|f rest IH]; intros w Hf Hdir Hfiles.
  - by eexists.
  - apply Forall_cons in Hfiles as [(dat & pkt & Hdat & Hwrap) Hrest].
    rewrite (FetchMessages_range_cons _ _ _ _ _ dir) by done.
    rewrite Hdat. simpl. rewrite Hwrap. by apply IH.
Qed.

(** The listing [ioutil.ReadDir] returns names exactly the files of the
    directory. *)
Lemma listing_elem_of (dir : gmap string (list byte)) name :
  name ∈ merge_sort String.le (map_to_list dir).*1 ↔ is_Some (dir !! name).
Proof.
  rewrite merge_sort_Permutation, list_elem_of_fmap. split.
  - intros [[k dat] [-> Hin%elem_of_map_to_list]]. by eexists.
  - intros [dat Hdat]. exists (name, dat). by rewrite elem_of_map_to_list.
Qed.

Lemma listing_length (dir : gmap string (list byte)) :
  length (merge_sort String.le (map_to_list dir).*1) = size dir.
Proof. by rewrite merge_sort_Permutation, length_fmap, length_map_to_list. Qed.

(** [FetchMessages] when no operation fails. *)
Lemma FetchMessages_no_faults clientId (w : server.World) :
  server.faults w = [] →
  server.FetchMessages clientId w
  = match server.inboxes w !! ("./inboxes/" +:+ clientId) with
    | None => (inr "NI", w)
    | Some dir =>
        if decide (size dir = 0) then (inr "EI", w)
        else
          match server.FetchMessages_range ("./inboxes/" +:+ clientId) clientId
                  (merge_sort String.le (map_to_list dir).*1) w with
          | (inl e, w') => (inl e, w')
          | (inr _, w') => (inr "SI", w')
          end
    end.
Proof.
  intros Hf. unfold server.FetchMessages.
  unfold mbind at 1. unfold server.IO_bind at 1.
  unfold server.DirExists. rewrite io_no_faults by done.
  destruct (server.inboxes w !! _) as [dir|] eqn:Hdir; simpl; [|done].
  unfold mbind at 1. unfold server.IO_bind at 1.
  unfold server.ReadDir. rewrite io_no_faults by done. rewrite Hdir.
  rewrite <- listing_length. case_decide; [done|].
  unfold mbind, server.IO_bind.
  by destruct (server.FetchMessages_range _ _ _ w) as [[e|[]] w'].
Qed.

Lemma delivered_functional address (dir : gmap string (list byte)) files sent1 sent2 :
  Forall2 (delivered address dir) files sent1 →
  Forall2 (delivered address dir) files sent2 →
  sent1 = sent2.
Proof.
  intros H1. revert sent2. induction H1 as [|f pkt1 files sent1 Hd1 _ IH];
    intros sent2 H2; inversion H2 as [|? pkt2 ? sent2' Hd2 Hrest]; simplify_eq; [done|].
  f_equal; [|by apply IH].
  destruct Hd1 as (Ha1 & dat1 & Hdat1 & Hw1), Hd2 as (Ha2 & dat2 & Hdat2 & Hw2).
  destruct pkt1, pkt2; simpl in *. congruence.
Qed.

(** C9: a fetch during which no input/output operation fails returns,
    provided the stored messages can be wrapped, and what it returns
    without error is exactly one of three signals: "NI" when the inbox
    directory does not exist, "EI" when it exists and holds no file, and
    "SI" otherwise, after one [COMM_FLAG] envelope per stored message has
    been written to a connection to the client's registered address. *)
Theorem FetchMessages_signals (w : server.World) clientId :
  let path := "./inboxes/" +:+ clientId in
  server.faults w = [] →
  ((∀ dir name dat, server.inboxes w !! path = Some dir → dir !! name = Some dat →
      ∃ pkt, WrapWithFlag server.COMM_FLAG dat = inr pkt) →
   ∃ signal w', server.FetchMessages clientId w = (inr signal, w'))
  ∧ (∀ signal w', server.FetchMessages clientId w = (inr signal, w') →
     match server.inboxes w !! path with
     | None => signal = "NI" ∧ w' = w
     | Some dir =>
         if decide (dir = ∅) then signal = "EI" ∧ w' = w
         else signal = "SI" ∧ same_store w w'
              ∧ ∃ sent, server.network w' = server.network w ++ sent
                  ∧ length sent = size dir
                  ∧ ∀ name dat, dir !! name = Some dat →
                      ∃ pkt, WrapWithFlag server.COMM_FLAG dat = inr pkt
                             ∧ (registered_address w clientId, pkt) ∈ sent
     end).
Proof.
  intros path Hf. rewrite FetchMessages_no_faults by done. fold path.
  destruct (server.inboxes w !! path) as [dir|] eqn:Hdir.
  2:{ split; [by eauto|]. by intros ?? [= <- <-]. }
  destruct (decide (dir = ∅)) as [->|Hne].
  { rewrite decide_True by apply map_size_empty. split; [by eauto|].
    by intros ?? [= <- <-]. }
  rewrite decide_False by (by rewrite map_size_empty_iff).
  split.
  - intros Hwrap.
    destruct (FetchMessages_range_returns path clientId
                (merge_sort String.le (map_to_list dir).*1) w dir) as [w' Hrun];
      [done..| |rewrite Hrun; by eauto].
    apply Forall_forall. intros name [dat Hdat]%listing_elem_of.
    destruct (Hwrap dir name dat) as [pkt Hpkt]; eauto.
  - intros signal w'.
    destruct (server.FetchMessages_range _ _ _ w) as [[e|[]] w1] eqn:Hrun; [done|].
    intros [= <- <-].
    apply (FetchMessages_range_no_faults _ _ _ _ _ dir) in Hrun
      as (_ & Hstore & sent & Hnet & Hsent); [|done..].
    split; [done|]. split; [done|]. exists sent. split; [done|]. split.
    + by rewrite <- (Forall2_length _ _ _ Hsent), listing_length.
    + intros name dat Hdat.
      assert (name ∈ merge_sort String.le (map_to_list dir).*1) as Hin
        by (apply listing_elem_of; eauto).
      apply list_elem_of_lookup in Hin as [i Hi].
      destruct (Forall2_lookup_l _ _ _ _ _ Hsent Hi)
        as ([address pkt] & Hpkt & Haddress & dat' & Hdat' & Hwrap).
      simplify_eq/=. exists pkt. split; [done|].
      apply list_elem_of_lookup. eauto.
Qed.

(** C2 (as the code has it): a pull never removes anything: whether the
    sends succeeded or failed, and whatever else went wrong, the inbox
    tree (and the registry) after [FetchMessages], and after the whole
    [HandlePullRequest], is the one before.  Every message therefore
    stays in place, and a fetch that follows a fetch which sent the
    messages sends the very same envelopes again. *)
Theorem pull_keeps_inboxes (w : server.World) clientId rqsBytes :
  same_store w (server.FetchMessages clientId w).2
  ∧ same_store w (server.HandlePullRequest rqsBytes w).2
  ∧ (server.faults w = [] →
     ∀ w', server.FetchMessages clientId w = (inr "SI", w') →
     ∃ sent w'', sent ≠ []
       ∧ server.network w' = server.network w ++ sent
       ∧ server.FetchMessages clientId w' = (inr "SI", w'')
       ∧ server.network w'' = server.network w ++ sent ++ sent).
Proof.
  pose proof same_store_preorder.
  split; [by apply (respects_FetchMessages same_store)|].
  split; [by apply (respects_HandlePullRequest same_store)|].
  intros Hf w'. rewrite FetchMessages_no_faults by done.
  set (path := "./inboxes/" +:+ clientId).
  destruct (server.inboxes w !! path) as [dir|] eqn:Hdir; [|done].
  case_decide as Hsize; [done|].
  set (files := merge_sort String.le (map_to_list dir).*1) in *.
  destruct (server.FetchMessages_range _ _ _ w) as [[e|[]] w1] eqn:Hrun; [done|].
  intros [= <-].
  apply (FetchMessages_range_no_faults _ _ _ _ _ dir) in Hrun
    as (Hf1 & [Hinboxes Hclients] & sent & Hnet & Hsent); [|done..].
  assert (Haddr : registered_address w1 clientId = registered_address w clientId).
  { unfold registered_address, server.client_record. by rewrite Hclients. }
  assert (Hdir1 : server.inboxes w1 !! path = Some dir) by (by rewrite Hinboxes).
  destruct (FetchMessages_range_returns path clientId files w1 dir) as [w2 Hrun2];
    [done..| |].
  { eapply Forall2_Forall_l; [exact Hsent|]. apply Forall_forall.
    intros pkt _ f (_ & dat & ? & ?). eauto. }
  exists sent, w2. split.
  { intros ->. apply Forall2_length in Hsent. unfold files in Hsent.
    rewrite listing_length in Hsent. done. }
  split; [done|].
  rewrite FetchMessages_no_faults by done. fold path. rewrite Hdir1.
  rewrite decide_False by done. fold files. rewrite Hrun2. split; [done|].
  apply (FetchMessages_range_no_faults _ _ _ _ _ dir) in Hrun2
    as (_ & _ & sent2 & Hnet2 & Hsent2); [|done..].
  rewrite Haddr in Hsent2.
  rewrite (delivered_functional _ _ _ _ _ Hsent2 Hsent) in Hnet2.
  by rewrite Hnet2, Hnet, <- app_assoc.
Qed.

End pull.

Section pull_examples.
Local Existing Instance toy.libraries.

Lemma FetchMessages_signals_witness :
  (∃ signal w', server.FetchMessages "bob" toy.bob_has_mail = (inr signal, w'))
  ∧ (∀ signal w',
       server.FetchMessages "bob" toy.bob_has_mail = (inr signal, w') →
       signal = "SI" ∧ same_store toy.bob_has_mail w'
       ∧ ∃ sent, server.network w' = server.network toy.bob_has_mail ++ sent
           ∧ length sent = 1
           ∧ ∀ name dat,
               ({[ "TMP_MESSAGE_ID.txt" := list_byte_of_string "hi" ]}
                  : gmap string (list byte)) !! name = Some dat →
               ∃ pkt, WrapWithFlag server.COMM_FLAG dat = inr pkt
                      ∧ ("10.0.0.9:9000", pkt) ∈ sent)
  ∧ (∀ signal w',
       server.FetchMessages "carol" toy.bob_has_mail = (inr signal, w') →
       signal = "NI" ∧ w' = toy.bob_has_mail).
Proof.
  split; [|split].
  - refine (proj1 (FetchMessages_signals toy.bob_has_mail "bob" eq_refl) _).
    intros dir name dat _ _. eexists. reflexivity.
  - exact (proj2 (FetchMessages_signals toy.bob_has_mail "bob" eq_refl)).
  - exact (proj2 (FetchMessages_signals toy.bob_has_mail "carol" eq_refl)).
Defined.

Lemma pull_keeps_inboxes_witness :
  ∃ sent w'', sent ≠ []
    ∧ server.network (server.FetchMessages "bob" toy.bob_has_mail).2
      = server.network toy.bob_has_mail ++ sent
    ∧ server.FetchMessages "bob" (server.FetchMessages "bob" toy.bob_has_mail).2
      = (inr "SI", w'')
    ∧ server.network w'' = server.network toy.bob_has_mail ++ sent ++ sent.
Proof.
  apply (pull_keeps_inboxes toy.bob_has_mail "bob" []); reflexivity.
Defined.

(** C2 (as stated) fails: the pull sends the stored message without
    error and yet the message stays in the inbox, and the next pull
    delivers it a second time. *)
Lemma pull_delivers_twice :
  let pull := list_byte_of_string "bob|bobnekoT_PMT" in
  let first := server.HandlePullRequest pull toy.bob_has_mail in
  let second := server.HandlePullRequest pull first.2 in
  let envelope := ("10.0.0.9:9000", [xc6] ++ list_byte_of_string "hi") in
  server.inboxes toy.bob_has_mail
  = {[ "./inboxes/bob" := {[ "TMP_MESSAGE_ID.txt" := list_byte_of_string "hi" ]} ]}
  ∧ server.network toy.bob_has_mail = []
  ∧ first.1 = inr tt
  ∧ server.network first.2 = [envelope]
  ∧ server.inboxes first.2 = server.inboxes toy.bob_has_mail
  ∧ second.1 = inr tt
  ∧ server.network second.2 = [envelope; envelope].
Proof. intros pull first second envelope. repeat split; vm_compute; reflexivity. Qed.

Lemma HandlePullRequest_authentication_failure_witness :
  ∃ w', server.HandlePullRequest (list_byte_of_string "bob|guess") toy.bob_has_mail
        = (inl (errorString "authentication went wrong"), w')
    ∧ server.network w' = server.network toy.bob_has_mail
    ∧ server.inboxes w' = server.inboxes toy.bob_has_mail
    ∧ server.assignedClients w' = server.assignedClients toy.bob_has_mail
    ∧ server.faults w' = server.faults toy.bob_has_mail
    ∧ server.logs w'
      = server.logs toy.bob_has_mail
        ++ [(server.Info, " Processing pull request: bob guess");
            (server.Warning, "Authentication went wrong")].
Proof.
  exact (HandlePullRequest_authentication_failure toy.bob_has_mail
           (list_byte_of_string "bob|guess") eq_refl eq_refl).
Defined.

(** C4 (as stated) fails: the pull with a wrong token is refused, and
    nothing at all is written to the network: no envelope goes back to
    the client. *)
Lemma rejected_pull_sends_nothing :
  let pull := list_byte_of_string "bob|guess" in
  server.AuthenticateUser toy.bob_has_mail "bob" (list_byte_of_string "guess") = false
  ∧ (server.HandlePullRequest pull toy.bob_has_mail).1
    = inl (errorString "authentication went wrong")
  ∧ server.network (server.HandlePullRequest pull toy.bob_has_mail).2 = [].
Proof. intros pull. repeat split; vm_compute; reflexivity. Qed.

End pull_examples.

(** ** Sphinx packets at the provider *)
Section packets.
Context `{Libraries}.

(** [ForwardPacket] when neither the dial nor the write fails. *)
Lemma ForwardPacket_no_faults sphinxPacket address packetBytes (w : server.World) :
  WrapWithFlag server.COMM_FLAG sphinxPacket = inr packetBytes →
  server.faults w = [] →
  server.ForwardPacket sphinxPacket address w
  = (inr tt,
     server.set_logs (λ l, l ++ [(server.Info, " Forwarded sphinx packet")])
       (server.set_network (λ n, n ++ [(address, packetBytes)]) w)).
Proof.
  intros Hwrap Hf. unfold server.ForwardPacket. rewrite Hwrap.
  unfold mbind, server.IO_bind, server.of_sum.
  by rewrite Send_no_faults by done.
Qed.

(** [StoreMessage] into an existing inbox when neither creating nor
    writing the file fails: the file named after the message id holds
    the message, whatever it held before. *)
Lemma StoreMessage_no_faults message inboxId messageId dir (w : server.World) :
  server.inboxes w !! ("./inboxes/" +:+ inboxId) = Some dir →
  server.faults w = [] →
  server.StoreMessage message inboxId messageId w
  = (inr tt,
     server.set_logs (λ l, l ++ [(server.Info, " Stored message for " +:+ inboxId)])
       (server.set_inboxes
          (λ fs, <["./inboxes/" +:+ inboxId := <[messageId +:+ ".txt" := message]> dir]> fs)
          w)).
Proof.
  intros Hdir Hf. unfold server.StoreMessage.
  unfold mbind, server.IO_bind, server.Create, server.file_Write.
  rewrite io_no_faults by done. rewrite Hdir.
  rewrite io_no_faults by done.
  unfold server.log, server.modify, server.set_logs, server.set_inboxes. simpl.
  by rewrite lookup_insert_eq, !insert_insert_eq.
Qed.

(** What [ReceivedPacket] does with a packet that unwraps. *)
Lemma ReceivedPacket_unwrapped packet dePacket nextHop flag (w : server.World) :
  ProcessPacket packet = (dePacket, nextHop, flag, None) →
  server.ReceivedPacket packet w
  = let w1 := server.set_logs
                (λ l, l ++ [(server.Info, "Received new sphinx packet")]) w in
    if decide (flag = RELAY) then
      server.ForwardPacket dePacket (sphinx.Address nextHop) w1
    else if decide (flag = FINAL) then
      server.StoreMessage dePacket (sphinx.Id nextHop) "TMP_MESSAGE_ID" w1
    else
      (inr tt, server.set_logs
                 (λ l, l ++ [(server.Info, "Sphinx packet flag not recognised")]) w1).
Proof.
  intros Hunwrap. unfold server.ReceivedPacket, server.checked. rewrite Hunwrap.
  unfold mbind, server.IO_bind, server.log, server.modify. simpl.
  unfold RELAY, FINAL. by repeat case_decide.
Qed.

(** C8: a packet that unwraps with the inner flag [RELAY] is handed to
    [ForwardPacket], which, when it can dial, writes the decrypted packet
    in a [COMM_FLAG] envelope to the next hop's address; with the inner
    flag [FINAL] it is handed to [StoreMessage] for the inbox of the id
    in the routing block, which, when that inbox exists, leaves the
    payload in it; with any other inner flag it is dropped: no error,
    nothing sent, nothing stored. *)
Theorem ReceivedPacket_dispatch packet dePacket nextHop flag (w : server.World) :
  ProcessPacket packet = (dePacket, nextHop, flag, None) →
  let w1 := server.set_logs
              (λ l, l ++ [(server.Info, "Received new sphinx packet")]) w in
  (flag = RELAY →
     server.ReceivedPacket packet w
     = server.ForwardPacket dePacket (sphinx.Address nextHop) w1
     ∧ ∀ packetBytes,
         WrapWithFlag server.COMM_FLAG dePacket = inr packetBytes →
         server.faults w = [] →
         (server.ReceivedPacket packet w).1 = inr tt
         ∧ server.network (server.ReceivedPacket packet w).2
           = server.network w ++ [(sphinx.Address nextHop, packetBytes)]
         ∧ same_store w (server.ReceivedPacket packet w).2)
  ∧ (flag = FINAL →
     server.ReceivedPacket packet w
     = server.StoreMessage dePacket (sphinx.Id nextHop) "TMP_MESSAGE_ID" w1
     ∧ ∀ dir,
         server.inboxes w !! ("./inboxes/" +:+ sphinx.Id nextHop) = Some dir →
         server.faults w = [] →
         (server.ReceivedPacket packet w).1 = inr tt
         ∧ server.inboxes (server.ReceivedPacket packet w).2
           = <["./inboxes/" +:+ sphinx.Id nextHop :=
                 <["TMP_MESSAGE_ID.txt" := dePacket]> dir]> (server.inboxes w)
         ∧ server.network (server.ReceivedPacket packet w).2 = server.network w)
  ∧ (flag ≠ RELAY → flag ≠ FINAL →
     (server.ReceivedPacket packet w).1 = inr tt
     ∧ server.network (server.ReceivedPacket packet w).2 = server.network w
     ∧ same_store w (server.ReceivedPacket packet w).2).
Proof.
  intros Hunwrap w1. rewrite (ReceivedPacket_unwrapped _ _ _ _ _ Hunwrap). fold w1.
  split; [|split].
  - intros ->. rewrite decide_True by done. split; [done|].
    intros packetBytes Hwrap Hf.
    by rewrite (ForwardPacket_no_faults _ _ _ _ Hwrap) by done.
  - intros ->. rewrite decide_False by done. rewrite decide_True by done.
    split; [done|]. intros dir Hdir Hf.
    by rewrite (StoreMessage_no_faults _ _ _ dir) by done.
  - intros Hrelay Hfinal. by rewrite !decide_False by done.
Qed.

End packets.

(** ** The one-file inbox *)
Section slots.
Context `{Libraries}.

#[local] Instance keeps_slot_preorder : PreOrder keeps_slot.
Proof. split; unfold keeps_slot; [by intros w|by intros w1 w2 w3 ???; eauto]. Qed.

Lemma keeps_slot_same_inboxes (w w' : server.World) :
  server.inboxes w' = server.inboxes w → keeps_slot w w'.
Proof. intros Heq Hslot path dir. rewrite Heq. apply Hslot. Qed.

Lemma keeps_slot_logs f w : keeps_slot w (server.set_logs f w).
Proof. by apply keeps_slot_same_inboxes. Qed.

Lemma keeps_slot_faults f w : keeps_slot w (server.set_faults f w).
Proof. by apply keeps_slot_same_inboxes. Qed.

Lemma keeps_slot_network f w : keeps_slot w (server.set_network f w).
Proof. by apply keeps_slot_same_inboxes. Qed.

Lemma keeps_slot_assignedClients f w : keeps_slot w (server.set_assignedClients f w).
Proof. by apply keeps_slot_same_inboxes. Qed.

(** Writing the file [TMP_MESSAGE_ID.txt] into a directory that obeys
    the bound keeps the bound. *)
Lemma keeps_slot_store path dir message (w : server.World) :
  server.inboxes w !! path = Some dir →
  keeps_slot w
    (server.set_inboxes (<[path := <["TMP_MESSAGE_ID.txt" := message]> dir]>) w).
Proof.
  intros Hdir Hslot path' dir'. simpl.
  destruct (decide (path = path')) as [<-|Hne].
  - rewrite lookup_insert_eq. intros [= <-]. rewrite dom_insert_L.
    apply union_least; [done|]. by apply (Hslot path).
  - rewrite lookup_insert_ne by done. apply Hslot.
Qed.

Lemma respects_slot_MkdirAll path : respects keeps_slot (server.MkdirAll path).
Proof.
  apply (respects_io keeps_slot keeps_slot_faults). apply respects_modify.
  intros w Hslot path' dir'. simpl.
  destruct (server.inboxes w !! path) eqn:Hpath; [apply Hslot|].
  destruct (decide (path = path')) as [<-|Hne].
  - rewrite lookup_insert_eq. intros [= <-]. set_solver.
  - rewrite lookup_insert_ne by done. apply Hslot.
Qed.

Lemma respects_slot_StoreMessage message inboxId :
  respects keeps_slot (server.StoreMessage message inboxId "TMP_MESSAGE_ID").
Proof.
  apply (respects_bind keeps_slot); [|intros _; apply (respects_bind keeps_slot); [|intros _]].
  - apply (respects_io keeps_slot keeps_slot_faults). intros w. simpl.
    destruct (server.inboxes w !! _) as [dir|] eqn:Hdir; [|done].
    by apply keeps_slot_store.
  - apply (respects_io keeps_slot keeps_slot_faults). apply respects_modify.
    intros w. destruct (server.inboxes w !! ("./inboxes/" +:+ inboxId))
      as [dir|] eqn:Hdir.
    + pose proof (keeps_slot_store _ _ message w Hdir) as Hstore.
      unfold server.set_inboxes in *. by rewrite Hdir.
    + unfold server.set_inboxes. rewrite Hdir. by destruct w.
  - apply (respects_log keeps_slot keeps_slot_logs).
Qed.

Lemma respects_slot_RegisterNewClient clientBytes :
  respects keeps_slot (server.RegisterNewClient clientBytes).
Proof.
  apply (respects_bind keeps_slot); [apply (respects_checked keeps_slot)|]. intros clientConf.
  apply (respects_bind keeps_slot); [|intros _].
  { apply respects_modify. intros w. apply keeps_slot_assignedClients. }
  apply (respects_bind keeps_slot); [apply (respects_DirExists keeps_slot keeps_slot_faults)|].
  intros exists_.
  apply (respects_bind keeps_slot); [|intros _; apply (respects_ret keeps_slot)].
  case_bool_decide; [apply respects_slot_MkdirAll|apply (respects_ret keeps_slot)].
Qed.

Lemma respects_slot_HandleAssignRequest packet :
  respects keeps_slot (server.HandleAssignRequest packet).
Proof.
  apply (respects_bind keeps_slot); [apply (respects_log keeps_slot keeps_slot_logs)|]. intros _.
  apply (respects_bind keeps_slot); [apply respects_slot_RegisterNewClient|].
  intros [token adr].
  apply (respects_bind keeps_slot); [apply (respects_of_sum keeps_slot)|]. intros tokenBytes.
  apply (respects_Send keeps_slot keeps_slot_faults keeps_slot_network).
Qed.

Lemma respects_slot_ReceivedPacket packet :
  respects keeps_slot (server.ReceivedPacket packet).
Proof.
  apply (respects_bind keeps_slot); [apply (respects_log keeps_slot keeps_slot_logs)|]. intros _.
  apply (respects_bind keeps_slot); [apply (respects_checked keeps_slot)|].
  intros [[dePacket nextHop] flag].
  repeat case_decide.
  - apply (respects_ForwardPacket keeps_slot keeps_slot_logs keeps_slot_faults keeps_slot_network).
  - apply respects_slot_StoreMessage.
  - apply (respects_log keeps_slot keeps_slot_logs).
Qed.

Lemma keeps_slot_HandleConnection conn (w : server.World) :
  keeps_slot w (server.HandleConnection conn w).2.
Proof.
  unfold server.HandleConnection.
  destruct (Unmarshal_GeneralPacket _) as [packet uerr].
  repeat case_decide.
  - pose proof (respects_slot_HandleAssignRequest (config.Data packet) w).
    by destruct (server.HandleAssignRequest _ w) as [[?|?] ?].
  - pose proof (respects_slot_ReceivedPacket (config.Data packet) w).
    by destruct (server.ReceivedPacket _ w) as [[?|?] ?].
  - pose proof (respects_HandlePullRequest keeps_slot keeps_slot_logs
                  keeps_slot_faults keeps_slot_network (config.Data packet) w).
    by destruct (server.HandlePullRequest _ w) as [[?|?] ?].
  - apply keeps_slot_logs.
Qed.

Lemma keeps_slot_accept_iteration a (w : server.World) :
  (server.accept_iteration a w).1 = Accepting
  ∧ keeps_slot w (server.accept_iteration a w).2.
Proof.
  destruct a as [err|conn]; simpl; [split; [done|apply keeps_slot_logs]|].
  pose proof (keeps_slot_HandleConnection conn
    (server.set_logs (λ l, l ++ [(server.Info,
       " Received new connection from " +:+ RemoteAddr conn)]) w)) as Hconn.
  destruct (server.HandleConnection conn _) as [sent w2]. simpl in Hconn.
  assert (keeps_slot w w2) by (etrans; [apply keeps_slot_logs|done]).
  destruct (head sent) as [[err|]|]; simpl; split; try done.
Qed.

(** *** The provider's accept loop *)

(** No iteration leaves the loop. *)
Lemma provider_iteration_accepting a (w : server.World) :
  (server.accept_iteration a w).1 = Accepting.
Proof. apply keeps_slot_accept_iteration. Qed.

Lemma provider_loop_cons a incoming (w : server.World) :
  server.ListenForIncomingConnections (a :: incoming) w
  = server.ListenForIncomingConnections incoming (server.accept_iteration a w).2.
Proof.
  unfold server.ListenForIncomingConnections. simpl.
  pose proof (provider_iteration_accepting a w) as Hstatus.
  destruct (server.accept_iteration a w) as [status w']. simpl in *. by subst.
Qed.


Lemma keeps_slot_loop incoming (w : server.World) :
  keeps_slot w (server.ListenForIncomingConnections incoming w).2.
Proof.
  revert w. induction incoming as [|a incoming IH]; intros w; [done|].
  rewrite provider_loop_cons.
  etrans; [apply keeps_slot_accept_iteration|apply IH].
Qed.

(** C6: the final-hop path always stores under the message id
    "TMP_MESSAGE_ID"; a second store into an inbox therefore replaces
    the file of the first; and however many connections the provider
    serves, an inbox that held at most that one file keeps holding at
    most that one file. *)
Theorem store_path_single_slot :
  (∀ packet dePacket nextHop (w : server.World),
     ProcessPacket packet = (dePacket, nextHop, FINAL, None) →
     server.ReceivedPacket packet w
     = server.StoreMessage dePacket (sphinx.Id nextHop) "TMP_MESSAGE_ID"
         (server.set_logs (λ l, l ++ [(server.Info, "Received new sphinx packet")]) w))
  ∧ (∀ first second inboxId dir (w : server.World),
       server.inboxes w !! ("./inboxes/" +:+ inboxId) = Some dir →
       server.faults w = [] →
       server.inboxes
         (server.StoreMessage second inboxId "TMP_MESSAGE_ID"
            (server.StoreMessage first inboxId "TMP_MESSAGE_ID" w).2).2
       !! ("./inboxes/" +:+ inboxId)
       = Some (<["TMP_MESSAGE_ID.txt" := second]> dir))
  ∧ (∀ incoming (w : server.World),
       single_slot w →
       ∀ path dir,
         server.inboxes (server.ListenForIncomingConnections incoming w).2 !! path
         = Some dir →
         dom dir ⊆ {["TMP_MESSAGE_ID.txt"]} ∧ size dir ≤ 1).
Proof.
  split; [|split].
  - intros packet dePacket nextHop w Hunwrap.
    by rewrite (ReceivedPacket_unwrapped _ _ _ _ _ Hunwrap).
  - intros first second inboxId dir w Hdir Hf.
    rewrite (StoreMessage_no_faults first _ _ dir) by done. simpl.
    rewrite (StoreMessage_no_faults second _ _
               (<["TMP_MESSAGE_ID.txt" := first]> dir));
      [|by apply lookup_insert_eq|done].
    simpl. by rewrite lookup_insert_eq, insert_insert_eq.
  - intros incoming w Hslot path dir Hdir.
    pose proof (keeps_slot_loop incoming w Hslot path dir Hdir) as Hdom.
    split; [done|].
    rewrite <- size_dom. etrans; [by apply subseteq_size|].
    by rewrite size_singleton.
Qed.

End slots.

(** ** Accept loops *)
Section accept_loops.
Context `{Libraries}.


End accept_loops.

Section provider_examples.
Local Existing Instance toy.libraries.

(** After them the inbox holds the second message only. *)
Example two_deliveries_one_file :
  server.inboxes (server.ListenForIncomingConnections toy.two_deliveries toy.fresh).2
  = {[ "./inboxes/bob" := {[ "TMP_MESSAGE_ID.txt" := list_byte_of_string "second" ]} ]}.
Proof. split. Qed.

Lemma store_path_single_slot_witness :
  server.inboxes
    (server.StoreMessage (list_byte_of_string "second") "bob" "TMP_MESSAGE_ID"
       (server.StoreMessage (list_byte_of_string "first") "bob" "TMP_MESSAGE_ID"
          toy.bob_has_mail).2).2
  !! "./inboxes/bob"
  = Some (<["TMP_MESSAGE_ID.txt" := list_byte_of_string "second"]>
            {[ "TMP_MESSAGE_ID.txt" := list_byte_of_string "hi" ]})
  ∧ ∀ path dir,
      server.inboxes (server.ListenForIncomingConnections toy.two_deliveries toy.fresh).2
      !! path = Some dir →
      dom dir ⊆ {["TMP_MESSAGE_ID.txt"]} ∧ size dir ≤ 1.
Proof.
  destruct store_path_single_slot as (_ & Hoverwrite & Hslot). split.
  - exact (Hoverwrite (list_byte_of_string "first") (list_byte_of_string "second")
             "bob" {[ "TMP_MESSAGE_ID.txt" := list_byte_of_string "hi" ]}
             toy.bob_has_mail eq_refl eq_refl).
  - apply Hslot. intros path dir Hdir. unfold toy.fresh in Hdir. simpl in Hdir.
    by rewrite lookup_empty in Hdir.
Defined.

Lemma ReceivedPacket_dispatch_witness :
  let relayed := [xf1] ++ list_byte_of_string "onion" in
  let final := [xf0] ++ list_byte_of_string "hello" in
  let other := [x00] ++ list_byte_of_string "noise" in
  server.network (server.ReceivedPacket relayed toy.fresh).2
  = server.network toy.fresh
    ++ [("10.0.0.7:9001", [xc6] ++ list_byte_of_string "onion")]
  ∧ server.inboxes (server.ReceivedPacket final toy.bob_has_mail).2
    = <["./inboxes/bob" :=
          <["TMP_MESSAGE_ID.txt" := list_byte_of_string "hello"]>
            {[ "TMP_MESSAGE_ID.txt" := list_byte_of_string "hi" ]}]>
        (server.inboxes toy.bob_has_mail)
  ∧ (server.ReceivedPacket other toy.bob_has_mail).1 = inr tt.
Proof.
  intros relayed final other. split; [|split].
  - exact (proj1 (proj2 (proj2 (proj1
      (ReceivedPacket_dispatch relayed (list_byte_of_string "onion") toy.hop RELAY
         toy.fresh eq_refl) eq_refl)
      ([xc6] ++ list_byte_of_string "onion") eq_refl eq_refl))).
  - exact (proj1 (proj2 (proj2 (proj1 (proj2
      (ReceivedPacket_dispatch final (list_byte_of_string "hello") toy.hop FINAL
         toy.bob_has_mail eq_refl)) eq_refl)
      {[ "TMP_MESSAGE_ID.txt" := list_byte_of_string "hi" ]} eq_refl eq_refl))).
  - refine (proj1 (proj2 (proj2
      (ReceivedPacket_dispatch other (list_byte_of_string "noise") toy.hop
         (String "000" EmptyString) toy.bob_has_mail eq_refl)) _ _)); discriminate.
Defined.

(** The provider logs both errors and then registers [bob]. *)
Example provider_serves_after_errors :
  let served := server.ListenForIncomingConnections toy.troubled_connections toy.fresh in
  served.1 = Accepting
  ∧ dom (server.assignedClients served.2) = {["bob"]}
  ∧ filter (λ entry, entry.1 = server.Error) (server.logs served.2)
    = [(server.Error, "accept tcp: too many open files");
       (server.Error, "read: connection reset by peer")].
Proof. intros served. repeat split; vm_compute; reflexivity. Qed.



End provider_examples.

(** * Further properties of the code *)

(** ** More on path sampling *)
Section sampling_more.
Context {MixPubs : Type} (zeroMixPubs : MixPubs).
Variable rand_Perm : Z → nat → list nat.

(** X1: [Permute] moves element [i] of the slice to position
    [permutation[i]]; when [rand.Perm] yields a permutation of the
    indices the call does not panic and its result is a rearrangement of
    the slice, of the same length. *)
Theorem Permute_rearranges now (slice : list MixPubs) :
  rand_Perm now (length slice) ≡ₚ seq 0 (length slice) →
  ∃ permuted,
    helpers.Permute zeroMixPubs rand_Perm now slice = Returned permuted
    ∧ permuted ≡ₚ slice
    ∧ length permuted = length slice
    ∧ ∀ i v, rand_Perm now (length slice) !! i = Some v →
             permuted !! v = slice !! i.
Proof.
  intros Hperm.
  destruct (Permute_Permutation zeroMixPubs rand_Perm now slice Hperm)
    as (permuted & Hrun & Hrearranged).
  exists permuted. split; [done|]. split; [done|].
  split; [by rewrite Hrearranged|].
  intros i v Hi. unfold helpers.Permute in Hrun.
  apply (Permute_range_written _ _ _ _ _ i v) in Hrun; [done| |done].
  rewrite Hperm. apply NoDup_seq.
Qed.

(** X2: the bounds of [RandomSample]: asking for no mix returns the
    empty slice, asking for as many mixes as there are returns a
    rearrangement of all of them, and a negative length panics. *)
Theorem RandomSample_bounds now (mixes : list MixPubs) :
  (∀ seed n, rand_Perm seed n ≡ₚ seq 0 n) →
  helpers.RandomSample zeroMixPubs rand_Perm now mixes 0 = Returned []
  ∧ (∃ sample,
       helpers.RandomSample zeroMixPubs rand_Perm now mixes (Z.of_nat (length mixes))
       = Returned sample
       ∧ sample ≡ₚ mixes)
  ∧ ∀ L, (L < 0)%Z →
      helpers.RandomSample zeroMixPubs rand_Perm now mixes L
      = Panicked "slice bounds out of range".
Proof.
  intros Hrand.
  destruct (Permute_Permutation zeroMixPubs rand_Perm now mixes (Hrand _ _))
    as (permuted & Hrun & Hrearranged).
  pose proof (Permute_length _ _ _ _ _ Hrun) as Hlen.
  unfold helpers.RandomSample. rewrite Hrun. simpl. split; [|split].
  - rewrite decide_True by lia. done.
  - exists permuted. rewrite decide_True by lia. split; [|done].
    by rewrite Nat2Z.id, <- Hlen, firstn_all.
  - intros L HL. by rewrite decide_False by lia.
Qed.

End sampling_more.

Lemma Permute_rearranges_witness :
  ∃ permuted,
    helpers.Permute "" toy.reversing_Perm 7 ["m1"; "m2"; "m3"] = Returned permuted
    ∧ permuted ≡ₚ ["m1"; "m2"; "m3"]
    ∧ length permuted = 3
    ∧ ∀ i v, toy.reversing_Perm 7 3 !! i = Some v →
             permuted !! v = ["m1"; "m2"; "m3"] !! i.
Proof.
  apply (Permute_rearranges "" toy.reversing_Perm 7 ["m1"; "m2"; "m3"]).
  apply reversing_Perm_permutation.
Defined.

Lemma RandomSample_bounds_witness :
  helpers.RandomSample "" toy.reversing_Perm 7 ["m1"; "m2"] 0 = Returned []
  ∧ (∃ sample,
       helpers.RandomSample "" toy.reversing_Perm 7 ["m1"; "m2"] 2 = Returned sample
       ∧ sample ≡ₚ ["m1"; "m2"])
  ∧ ∀ L, (L < 0)%Z →
      helpers.RandomSample "" toy.reversing_Perm 7 ["m1"; "m2"] L
      = Panicked "slice bounds out of range".
Proof.
  apply (RandomSample_bounds "" toy.reversing_Perm 7 ["m1"; "m2"]
           reversing_Perm_permutation).
Defined.

(** ** More on registration and authentication *)
Section registration_more.
Context `{Libraries}.

#[local] Instance keeps_messages_preorder : PreOrder keeps_messages.
Proof. split; unfold keeps_messages; [by intros w|by intros w1 w2 w3 ?????; eauto]. Qed.

Lemma keeps_messages_same_inboxes (w w' : server.World) :
  server.inboxes w' = server.inboxes w → keeps_messages w w'.
Proof. intros Heq path dir. by rewrite Heq. Qed.

(** The registry after [RegisterNewClient], whatever else happens. *)
Lemma RegisterNewClient_registry clientBytes (w : server.World) :
  server.assignedClients (server.RegisterNewClient clientBytes w).2
  = match (Unmarshal_ClientConfig clientBytes).2 with
    | Some _ => server.assignedClients w
    | None =>
        <[config.Id (Unmarshal_ClientConfig clientBytes).1 :=
            registered_record (Unmarshal_ClientConfig clientBytes).1]>
          (server.assignedClients w)
    end.
Proof.
  destruct (Unmarshal_ClientConfig clientBytes).2 as [e|] eqn:Hdecoded.
  - unfold server.RegisterNewClient, server.checked. by rewrite Hdecoded.
  - by apply RegisterNewClient_record.
Qed.

(** The rest of [HandleAssignRequest] does not touch the registry. *)
Lemma HandleAssignRequest_registry packet (w : server.World) :
  server.assignedClients (server.HandleAssignRequest packet w).2
  = server.assignedClients
      (server.RegisterNewClient packet
         (server.set_logs (λ l, l ++ [(server.Info,
            "Received assign request from the client")]) w)).2.
Proof.
  pose proof same_store_preorder.
  unfold server.HandleAssignRequest.
  unfold mbind at 1. unfold server.IO_bind at 1. simpl.
  unfold mbind at 1. unfold server.IO_bind at 1.
  destruct (server.RegisterNewClient packet _) as [[e|[token adr]] w1]; [done|].
  simpl. unfold mbind, server.IO_bind, server.of_sum.
  destruct (WrapWithFlag server.TOKEN_FLAG token) as [e|tokenBytes]; [done|].
  by apply (respects_Send same_store).
Qed.

(** X3: after a successful registration the returned token, and no other
    byte string, authenticates the client. *)
Theorem registration_token_authenticates clientBytes (w w' : server.World)
    token address :
  server.RegisterNewClient clientBytes w = (inr (token, address), w') →
  ∀ presented,
    server.AuthenticateUser w' (config.Id (Unmarshal_ClientConfig clientBytes).1)
      presented = true
    ↔ presented = token.
Proof.
  intros Hrun presented.
  destruct (RegisterNewClient_token _ _ _ _ _ Hrun) as [Hdecoded ->].
  pose proof (RegisterNewClient_registry clientBytes w) as Hregistry.
  rewrite Hrun, Hdecoded in Hregistry. simpl in Hregistry.
  rewrite AuthenticateUser_spec. unfold server.client_record.
  rewrite Hregistry, lookup_insert_eq. simpl. split; by intros ->.
Qed.

(** X4: a registration request, handled to whatever end, changes the
    record of no client but the one it names: every other id keeps its
    record and authenticates exactly as before. *)
Theorem registration_leaves_other_clients packet (w : server.World) clientId :
  clientId ≠ config.Id (Unmarshal_ClientConfig packet).1 →
  server.client_record (server.HandleAssignRequest packet w).2 clientId
  = server.client_record w clientId
  ∧ ∀ presented,
      server.AuthenticateUser (server.HandleAssignRequest packet w).2 clientId presented
      = server.AuthenticateUser w clientId presented.
Proof.
  intros Hother.
  assert (Hrecord : server.client_record (server.HandleAssignRequest packet w).2 clientId
                    = server.client_record w clientId).
  { unfold server.client_record.
    rewrite HandleAssignRequest_registry, RegisterNewClient_registry.
    destruct (Unmarshal_ClientConfig packet).2; [done|].
    by rewrite lookup_insert_ne. }
  split; [done|]. intros presented. unfold server.AuthenticateUser.
  by rewrite Hrecord.
Qed.

(** X5: registration is not undone by a later failure.  Once the request
    is decoded the record is in the registry when [HandleAssignRequest]
    ends, and its token authenticates, also when the call returns an
    error; when the directory check fails, the error is returned and no
    token is sent, yet the client is registered. *)
Theorem failed_registration_still_registers packet (w : server.World) :
  let clientConf := (Unmarshal_ClientConfig packet).1 in
  (Unmarshal_ClientConfig packet).2 = None →
  server.assignedClients (server.HandleAssignRequest packet w).2
    !! config.Id clientConf = Some (registered_record clientConf)
  ∧ server.AuthenticateUser (server.HandleAssignRequest packet w).2
      (config.Id clientConf) (server.Token (registered_record clientConf)) = true
  ∧ ∀ e rest,
      server.faults w = Some e :: rest →
      (server.HandleAssignRequest packet w).1 = inl e
      ∧ server.network (server.HandleAssignRequest packet w).2 = server.network w.
Proof.
  intros clientConf Hdecoded.
  assert (Hrecord : server.assignedClients (server.HandleAssignRequest packet w).2
                    !! config.Id clientConf = Some (registered_record clientConf)).
  { rewrite HandleAssignRequest_registry, RegisterNewClient_registry, Hdecoded.
    apply lookup_insert_eq. }
  split; [done|]. split.
  - apply AuthenticateUser_spec. unfold server.client_record. by rewrite Hrecord.
  - intros e rest Hf.
    unfold server.HandleAssignRequest, server.RegisterNewClient, server.checked.
    rewrite Hdecoded.
    unfold mbind, mret, server.IO_bind, server.IO_ret, server.log, server.modify,
      server.DirExists, server.io. simpl. by rewrite Hf.
Qed.

Lemma respects_messages_RegisterNewClient clientBytes :
  respects keeps_messages (server.RegisterNewClient clientBytes).
Proof.
  assert (Hsame : ∀ f w, keeps_messages w (server.set_faults f w))
    by (intros; by apply keeps_messages_same_inboxes).
  apply (respects_bind keeps_messages); [apply (respects_checked keeps_messages)|].
  intros clientConf.
  apply (respects_bind keeps_messages); [|intros _].
  { apply respects_modify. intros w. by apply keeps_messages_same_inboxes. }
  apply (respects_bind keeps_messages);
    [apply (respects_DirExists keeps_messages Hsame)|].
  intros exists_.
  apply (respects_bind keeps_messages); [|intros _; apply (respects_ret keeps_messages)].
  case_bool_decide; [|apply (respects_ret keeps_messages)].
  apply (respects_io keeps_messages Hsame). apply respects_modify.
  intros w path dir Hdir. simpl.
  destruct (server.inboxes w !! ("./inboxes/" +:+ config.Id clientConf)) eqn:Hpath;
    [done|].
  rewrite lookup_insert_ne; [done|]. intros <-. by rewrite Hpath in Hdir.
Qed.

(** X6: registering, or registering again, never deletes or alters a
    stored message: every inbox directory is found afterwards with the
    files and contents it had, whatever fails on the way. *)
Theorem registration_keeps_stored_messages packet (w : server.World) path dir :
  server.inboxes w !! path = Some dir →
  server.inboxes (server.RegisterNewClient packet w).2 !! path = Some dir
  ∧ server.inboxes (server.HandleAssignRequest packet w).2 !! path = Some dir.
Proof.
  intros Hdir. split; [by apply respects_messages_RegisterNewClient|].
  revert path dir Hdir.
  change (keeps_messages w (server.HandleAssignRequest packet w).2).
  assert (Hlogs : ∀ f w, keeps_messages w (server.set_logs f w))
    by (intros; by apply keeps_messages_same_inboxes).
  assert (Hfaults : ∀ f w, keeps_messages w (server.set_faults f w))
    by (intros; by apply keeps_messages_same_inboxes).
  assert (Hnetwork : ∀ f w, keeps_messages w (server.set_network f w))
    by (intros; by apply keeps_messages_same_inboxes).
  revert w. change (respects keeps_messages (server.HandleAssignRequest packet)).
  apply (respects_bind keeps_messages); [apply (respects_log keeps_messages Hlogs)|].
  intros _.
  apply (respects_bind keeps_messages); [apply respects_messages_RegisterNewClient|].
  intros [token adr].
  apply (respects_bind keeps_messages); [apply (respects_of_sum keeps_messages)|].
  intros tokenBytes. apply (respects_Send keeps_messages Hfaults Hnetwork).
Qed.

End registration_more.

Section registration_more_examples.
Local Existing Instance toy.libraries.

Lemma registration_token_authenticates_witness :
  let registered :=
    (server.RegisterNewClient (list_byte_of_string "bob|10.0.0.9") toy.fresh).2 in
  (server.AuthenticateUser registered "bob" (list_byte_of_string "bobnekoT_PMT") = true
   ↔ list_byte_of_string "bobnekoT_PMT" = list_byte_of_string "bobnekoT_PMT")
  ∧ (server.AuthenticateUser registered "bob" (list_byte_of_string "guess") = true
     ↔ list_byte_of_string "guess" = list_byte_of_string "bobnekoT_PMT").
Proof.
  intros registered.
  pose proof (registration_token_authenticates (H := toy.libraries)
                (list_byte_of_string "bob|10.0.0.9") toy.fresh registered
                (list_byte_of_string "bobnekoT_PMT") "10.0.0.9:9000" eq_refl)
    as Hwitness.
  split; apply Hwitness.
Defined.

Lemma registration_leaves_other_clients_witness :
  server.client_record
    (server.HandleAssignRequest (list_byte_of_string "alice|10.0.0.5")
       toy.bob_has_mail).2 "bob"
  = server.client_record toy.bob_has_mail "bob"
  ∧ ∀ presented,
      server.AuthenticateUser
        (server.HandleAssignRequest (list_byte_of_string "alice|10.0.0.5")
           toy.bob_has_mail).2 "bob" presented
      = server.AuthenticateUser toy.bob_has_mail "bob" presented.
Proof.
  apply (registration_leaves_other_clients (list_byte_of_string "alice|10.0.0.5")
           toy.bob_has_mail "bob").
  discriminate.
Defined.

Lemma failed_registration_still_registers_witness :
  let stat_fails :=
    server.set_faults (λ _, [Some (errorString "stat: permission denied")]) toy.fresh in
  let after :=
    server.HandleAssignRequest (list_byte_of_string "alice|10.0.0.5") stat_fails in
  after.1 = inl (errorString "stat: permission denied")
  ∧ server.network after.2 = []
  ∧ server.AuthenticateUser after.2 "alice" (list_byte_of_string "ecilanekoT_PMT")
    = true.
Proof.
  intros stat_fails after.
  destruct (failed_registration_still_registers (H := toy.libraries)
              (list_byte_of_string "alice|10.0.0.5") stat_fails eq_refl)
    as (_ & Hauth & Hfails).
  destruct (Hfails (errorString "stat: permission denied") [] eq_refl) as [Herr Hnet].
  split; [exact Herr|]. split; [exact Hnet|exact Hauth].
Defined.

Lemma registration_keeps_stored_messages_witness :
  server.inboxes
    (server.RegisterNewClient (list_byte_of_string "bob|10.0.0.77")
       toy.bob_has_mail).2 !! "./inboxes/bob"
  = Some {[ "TMP_MESSAGE_ID.txt" := list_byte_of_string "hi" ]}
  ∧ server.inboxes
      (server.HandleAssignRequest (list_byte_of_string "bob|10.0.0.77")
         toy.bob_has_mail).2 !! "./inboxes/bob"
    = Some {[ "TMP_MESSAGE_ID.txt" := list_byte_of_string "hi" ]}.
Proof.
  apply (registration_keeps_stored_messages (list_byte_of_string "bob|10.0.0.77")
           toy.bob_has_mail "./inboxes/bob").
  reflexivity.
Defined.

End registration_more_examples.

(** ** More on storing and sending *)
Section store_more.
Context `{Libraries}.

Lemma io_head_None {A} (op : server.IO A) (w : server.World) rest :
  server.faults w = None :: rest →
  server.io op w = op (server.set_faults (λ _, rest) w).
Proof. intros Hf. unfold server.io. by rewrite Hf. Qed.

Lemma io_head_Some {A} (op : server.IO A) (w : server.World) e rest :
  server.faults w = Some e :: rest →
  server.io op w = (inl e, server.set_faults (λ _, rest) w).
Proof. intros Hf. unfold server.io. by rewrite Hf. Qed.

(** What [StoreMessage] can do to the inbox tree: nothing, or write the
    one file into a directory that exists. *)
Lemma StoreMessage_inboxes message inboxId messageId (w : server.World) :
  let after := server.StoreMessage message inboxId messageId w in
  server.assignedClients after.2 = server.assignedClients w
  ∧ server.network after.2 = server.network w
  ∧ (server.inboxes after.2 = server.inboxes w
     ∨ ∃ dir content,
         server.inboxes w !! ("./inboxes/" +:+ inboxId) = Some dir
         ∧ server.inboxes after.2
           = <["./inboxes/" +:+ inboxId := <[messageId +:+ ".txt" := content]> dir]>
               (server.inboxes w)).
Proof.
  unfold server.StoreMessage, mbind, server.IO_bind, server.Create,
    server.file_Write, server.io, server.modify, server.log. simpl.
  destruct w as [clients fs net lg tape]. simpl.
  destruct tape as [|[e|] [|[e'|] tape]]; simpl;
    destruct (fs !! ("./inboxes/" +:+ inboxId)) as [dir|] eqn:Hdir; simpl;
    rewrite ?lookup_insert_eq; simpl; rewrite ?insert_insert_eq;
    repeat split; eauto.
Qed.

(** X7: a message for a recipient without an inbox directory is not
    stored: [StoreMessage] returns an error and the inbox tree, the
    registry, the network and the log are left as they were. *)
Theorem StoreMessage_unknown_recipient message inboxId messageId (w : server.World) :
  server.inboxes w !! ("./inboxes/" +:+ inboxId) = None →
  ∃ e, (server.StoreMessage message inboxId messageId w).1 = inl e
     ∧ server.inboxes (server.StoreMessage message inboxId messageId w).2
       = server.inboxes w
     ∧ server.assignedClients (server.StoreMessage message inboxId messageId w).2
       = server.assignedClients w
     ∧ server.network (server.StoreMessage message inboxId messageId w).2
       = server.network w
     ∧ server.logs (server.StoreMessage message inboxId messageId w).2
       = server.logs w.
Proof.
  intros Hdir.
  unfold server.StoreMessage, mbind, server.IO_bind, server.Create, server.io.
  destruct (server.faults w) as [|[e|] tape]; simpl; rewrite ?Hdir; eauto 10.
Qed.

(** X8: [StoreMessage] touches one file only.  Whatever fails, it
    creates no inbox directory, leaves the registry and the network
    alone, and every file other than the one named by the message id in
    the recipient's inbox reads as before. *)
Theorem StoreMessage_frame message inboxId messageId (w : server.World) :
  let after := (server.StoreMessage message inboxId messageId w).2 in
  dom (server.inboxes after) = dom (server.inboxes w)
  ∧ server.assignedClients after = server.assignedClients w
  ∧ server.network after = server.network w
  ∧ ∀ path name,
      (path, name) ≠ ("./inboxes/" +:+ inboxId, messageId +:+ ".txt") →
      server.inboxes after !! path ≫= (.!! name)
      = server.inboxes w !! path ≫= (.!! name).
Proof.
  intros after. subst after.
  destruct (StoreMessage_inboxes message inboxId messageId w)
    as (Hclients & Hnet & [Hsame|(dir & content & Hdir & Hwritten)]).
  - rewrite Hsame. done.
  - rewrite Hwritten. split; [|split; [done|split; [done|]]].
    + rewrite dom_insert_L. apply elem_of_dom_2 in Hdir.
      apply set_eq. intros path. rewrite elem_of_union, elem_of_singleton.
      split; [by intros [->|?]|by right].
    + intros path name Hother.
      destruct (decide (path = "./inboxes/" +:+ inboxId)) as [->|Hpath].
      * rewrite lookup_insert_eq, Hdir. simpl.
        rewrite lookup_insert_ne; [done|]. by intros <-.
      * by rewrite lookup_insert_ne.
Qed.

(** X9: what is stored is what a fetch delivers.  When no operation
    fails, after [StoreMessage] has put a message into the inbox of a
    client, [FetchMessages] for that client returns "SI" and has
    written the message, in a [COMM_FLAG] envelope, to the client's
    registered address, one envelope per file of the inbox. *)
Theorem store_then_fetch message clientId messageId dir pkt (w : server.World) :
  server.faults w = [] →
  server.inboxes w !! ("./inboxes/" +:+ clientId) = Some dir →
  WrapWithFlag server.COMM_FLAG message = inr pkt →
  (∀ name dat, dir !! name = Some dat →
     ∃ wrapped, WrapWithFlag server.COMM_FLAG dat = inr wrapped) →
  let stored := (server.StoreMessage message clientId messageId w).2 in
  ∃ fetched sent,
    server.FetchMessages clientId stored = (inr "SI", fetched)
    ∧ server.network fetched = server.network w ++ sent
    ∧ (registered_address w clientId, pkt) ∈ sent
    ∧ length sent = size (<[messageId +:+ ".txt" := message]> dir).
Proof.
  intros Hf Hdir Hwrap Hothers stored. subst stored.
  rewrite (StoreMessage_no_faults _ _ _ dir) by done. simpl.
  set (path := "./inboxes/" +:+ clientId).
  set (name := messageId +:+ ".txt").
  set (dir' := <[name := message]> dir).
  set (stored := server.set_logs _ _).
  assert (Hf' : server.faults stored = []) by done.
  assert (Hdir' : server.inboxes stored !! path = Some dir')
    by apply lookup_insert_eq.
  assert (Haddr : registered_address stored clientId = registered_address w clientId)
    by done.
  rewrite FetchMessages_no_faults by done. fold path. rewrite Hdir'.
  rewrite decide_False
    by (rewrite map_size_empty_iff; apply insert_non_empty).
  set (files := merge_sort String.le (map_to_list dir').*1).
  destruct (FetchMessages_range_returns path clientId files stored dir')
    as [fetched Hrun]; [done..| |].
  { apply Forall_forall. intros f [dat Hdat]%listing_elem_of.
    pose proof Hdat as Hdat'. unfold dir' in Hdat.
    apply lookup_insert_Some in Hdat as [[_ <-]|[_ Hdat]].
    - by exists message, pkt.
    - destruct (Hothers f dat Hdat) as [wrapped Hwrapped]. by exists dat, wrapped. }
  rewrite Hrun.
  apply (FetchMessages_range_no_faults _ _ _ _ _ dir') in Hrun
    as (_ & _ & sent & Hnet & Hsent); [|done..].
  exists fetched, sent. split; [done|]. split; [done|]. split.
  - assert (name ∈ files) as Hin
      by (apply listing_elem_of; unfold dir'; rewrite lookup_insert_eq; eauto).
    apply list_elem_of_lookup in Hin as [i Hi].
    destruct (Forall2_lookup_l _ _ _ _ _ Hsent Hi)
      as ([address wrapped] & Hpkt & Haddress & dat & Hdat & Hwrapped).
    unfold dir' in Hdat. rewrite lookup_insert_eq in Hdat. simplify_eq/=.
    rewrite Haddr in Hpkt. rewrite Hwrap in Hwrapped. simplify_eq.
    apply list_elem_of_lookup. eauto.
  - rewrite <- (Forall2_length _ _ _ Hsent). apply listing_length.
Qed.

End store_more.

(** ** More on what reaches the network *)
Section network_more.
Context `{Libraries}.

(** What [Send] can do: the registry, the inbox tree and the log stay,
    and the network gains the packet or nothing. *)
Lemma Send_effect packet address (w : server.World) :
  same_store w (server.Send packet address w).2
  ∧ (server.network (server.Send packet address w).2 = server.network w
     ∨ server.network (server.Send packet address w).2
       = server.network w ++ [(address, packet)]).
Proof.
  unfold server.Send, mbind, server.IO_bind, server.Dial, server.conn_Write,
    server.io, server.modify, mret, server.IO_ret.
  destruct w as [clients fs net lg tape].
  destruct tape as [|[e|] [|[e'|] tape]]; simpl; repeat split; eauto.
Qed.

(** X10: [Send] reports the failure of the dial and of nothing else.
    It returns an error exactly when the dial fails; when the dial
    succeeds and the write fails it returns no error although nothing
    was written; and a fetch of a one-message inbox whose write fails
    still answers "SI" with nothing sent. *)
Theorem write_failure_is_silent packet address (w : server.World) :
  (∀ e, (server.Send packet address w).1 = inl e
        ↔ ∃ rest, server.faults w = Some e :: rest)
  ∧ (∀ e rest,
       server.faults w = None :: Some e :: rest →
       (server.Send packet address w).1 = inr tt
       ∧ server.network (server.Send packet address w).2 = server.network w)
  ∧ (∀ clientId name dat wrapped e rest,
       server.inboxes w !! ("./inboxes/" +:+ clientId) = Some {[ name := dat ]} →
       WrapWithFlag server.COMM_FLAG dat = inr wrapped →
       server.faults w = [None; None; None; None; Some e] ++ rest →
       (server.FetchMessages clientId w).1 = inr "SI"
       ∧ server.network (server.FetchMessages clientId w).2 = server.network w).
Proof.
  split; [|split].
  - intros e.
    unfold server.Send, mbind, server.IO_bind, server.Dial, server.conn_Write,
      server.io, server.modify, mret, server.IO_ret.
    destruct w as [clients fs net lg tape].
    destruct tape as [|[e0|] [|[e'|] tape]]; simpl;
      (split;
       [intros Heq; first [discriminate Heq|injection Heq as <-; by eexists]
       |intros [rest Hrest];
        first [discriminate Hrest|by injection Hrest as <-]]).
  - intros e rest Hf.
    unfold server.Send, mbind, server.IO_bind, server.Dial, server.conn_Write,
      server.io, server.modify, mret, server.IO_ret.
    by rewrite Hf.
  - intros clientId name dat wrapped e rest Hdir Hwrap Hf.
    enough (∃ w', server.FetchMessages clientId w = (inr "SI", w')
                  ∧ server.network w' = server.network w)
      as (w' & -> & Hnet) by done.
    unfold server.FetchMessages, server.DirExists, server.ReadDir.
    unfold mbind at 1. unfold server.IO_bind at 1.
    rewrite (io_head_None _ _ _ Hf). simpl. rewrite Hdir. simpl.
    unfold mbind at 1. unfold server.IO_bind at 1.
    rewrite (io_head_None _ _ ([None; None; Some e] ++ rest)) by done.
    simpl. rewrite Hdir, map_to_list_singleton. simpl.
    unfold mbind, server.IO_bind, server.ReadFile, server.get, server.log,
      server.modify, server.of_sum, server.Send, server.Dial, server.conn_Write,
      mret, server.IO_ret.
    rewrite (io_head_None _ _ ([None; Some e] ++ rest)) by done.
    simpl. rewrite Hdir. simpl. rewrite lookup_singleton_eq. simpl. rewrite Hwrap.
    eexists. split; [reflexivity|done].
Qed.

(** The delivery loop only writes to the client's registered address,
    and only wrapped contents of files of the inbox. *)
Lemma FetchMessages_range_sends path clientId files (w w' : server.World) r :
  server.FetchMessages_range path clientId files w = (r, w') →
  same_store w w'
  ∧ ∃ sent,
      server.network w' = server.network w ++ sent
      ∧ Forall (λ pkt, pkt.1 = registered_address w clientId
                       ∧ ∃ name dat,
                           server.inboxes w !! path ≫= (.!! name) = Some dat
                           ∧ WrapWithFlag server.COMM_FLAG dat = inr pkt.2) sent.
Proof.
  revert w. induction files as [|f rest IH]; intros w; simpl.
  { intros [= <- <-]. split; [done|]. exists []. by rewrite app_nil_r. }
  unfold mbind at 1. unfold server.IO_bind at 1.
  assert (Hread : ∀ res w1, server.ReadFile path f w = (res, w1) →
            same_store w w1 ∧ server.network w1 = server.network w
            ∧ ∀ dat, res = inr dat →
                server.inboxes w !! path ≫= (.!! f) = Some dat).
  { unfold server.ReadFile, server.io. intros res w1.
    destruct (server.faults w) as [|[e|] tape]; simpl;
      [| by intros [= <- <-]|];
      destruct (server.inboxes w !! path ≫= _) eqn:Hfile;
      intros [= <- <-]; repeat split; try done; by intros ? [= <-]. }
  destruct (server.ReadFile path f w) as [[e|dat] w1] eqn:Hrun;
    destruct (Hread _ _ eq_refl) as ([Hi1 Hc1] & Hnet1 & Hfile).
  { intros [= <- <-]. split; [done|]. exists []. by rewrite app_nil_r. }
  specialize (Hfile dat eq_refl).
  assert (Haddr1 : registered_address w1 clientId = registered_address w clientId).
  { unfold registered_address, server.client_record. by rewrite Hc1. }
  unfold mbind at 1. unfold server.IO_bind at 1. unfold server.get.
  unfold mbind at 1. unfold server.IO_bind at 1. unfold server.log, server.modify.
  unfold mbind at 1. unfold server.IO_bind at 1. unfold server.of_sum.
  fold (registered_address w1 clientId).
  destruct (WrapWithFlag server.COMM_FLAG dat) as [e|msgBytes] eqn:Hwrap.
  { intros [= <- <-]. split; [done|]. exists []. simpl. by rewrite app_nil_r. }
  set (w2 := server.set_logs _ w1).
  unfold mbind at 1. unfold server.IO_bind at 1.
  destruct (Send_effect msgBytes (registered_address w1 clientId) w2)
    as ([Hi3 Hc3] & Hnet3).
  assert (Hfirst : ∃ first,
            server.network (server.Send msgBytes
                              (registered_address w1 clientId) w2).2
            = server.network w ++ first
            ∧ Forall (λ pkt, pkt.1 = registered_address w clientId
                ∧ ∃ name dat0,
                    server.inboxes w !! path ≫= (.!! name) = Some dat0
                    ∧ WrapWithFlag server.COMM_FLAG dat0 = inr pkt.2) first).
  { destruct Hnet3 as [->| ->]; simpl; rewrite Hnet1.
    - exists []. by rewrite app_nil_r.
    - eexists. split; [done|]. constructor; [|done]. simpl.
      split; [done|]. by exists f, dat. }
  destruct Hfirst as (first & Hnet3' & Hfirst).
  destruct (server.Send msgBytes _ w2) as [[e|[]] w3] eqn:Hsend; simpl in *.
  - intros [= <- <-]. split; [split; congruence|]. by exists first.
  - intros Hrest. destruct (IH _ Hrest) as ([Hi4 Hc4] & sent & Hnet4 & Hsent).
    split; [split; congruence|].
    exists (first ++ sent). split; [by rewrite Hnet4, Hnet3', <- app_assoc|].
    apply Forall_app. split; [done|].
    eapply Forall_impl; [exact Hsent|]. intros pkt (Ha & name & dat0 & Hf0 & Hw0).
    split.
    + rewrite Ha, <- Haddr1. unfold registered_address, server.client_record.
      by rewrite Hc3.
    + exists name, dat0. split; [|done]. rewrite <- Hf0. by rewrite Hi3, Hi1.
Qed.

(** X11: a fetch writes to nobody but the client.  Whatever fails,
    everything [FetchMessages] adds to the network goes to the address
    registered for the client id and holds, in a [COMM_FLAG] envelope,
    the contents of a file of that client's inbox. *)
Theorem FetchMessages_sends_only_to_client clientId (w : server.World) :
  ∃ sent,
    server.network (server.FetchMessages clientId w).2 = server.network w ++ sent
    ∧ ∀ pkt, pkt ∈ sent →
        pkt.1 = registered_address w clientId
        ∧ ∃ name dat,
            server.inboxes w !! ("./inboxes/" +:+ clientId) ≫= (.!! name) = Some dat
            ∧ WrapWithFlag server.COMM_FLAG dat = inr pkt.2.
Proof.
  set (path := "./inboxes/" +:+ clientId).
  set (sends_to_client := λ sent : list (string * list byte),
         ∀ pkt, pkt ∈ sent →
           pkt.1 = registered_address w clientId
           ∧ ∃ name dat,
               server.inboxes w !! path ≫= (.!! name) = Some dat
               ∧ WrapWithFlag server.COMM_FLAG dat = inr pkt.2).
  assert (Hnone : ∃ sent, server.network w = server.network w ++ sent
                          ∧ sends_to_client sent).
  { exists []. rewrite app_nil_r. split; [done|]. by intros pkt ?%elem_of_nil. }
  assert (Hrange : ∀ files f,
            ∃ sent,
              server.network (server.FetchMessages_range path clientId files
                                (server.set_faults f w)).2
              = server.network w ++ sent
              ∧ sends_to_client sent).
  { intros files f.
    destruct (server.FetchMessages_range path clientId files _) as [r w2] eqn:Hrun.
    destruct (FetchMessages_range_sends _ _ _ _ _ _ Hrun)
      as (_ & sent & Hnet & Hsent).
    exists sent. split; [done|]. intros pkt Hpkt.
    by apply (proj1 (Forall_forall _ _) Hsent). }
  assert (Hdir : ∀ f, ∃ sent,
            server.network
              ((server.ReadDir path ≫= λ files,
                  if decide (length files = 0) then mret "EI"
                  else server.FetchMessages_range path clientId files
                       ≫= λ _, mret "SI") (server.set_faults f w)).2
            = server.network w ++ sent
            ∧ sends_to_client sent).
  { intros f. unfold mbind at 1. unfold server.IO_bind at 1.
    unfold server.ReadDir, server.io. simpl.
    destruct (f (server.faults w)) as [|[e|] tape]; simpl; [|done|];
      (destruct (server.inboxes w !! path) as [dir|]; [|done]);
      (case_decide; [done|]); unfold mbind, server.IO_bind.
    - destruct (Hrange (merge_sort String.le (map_to_list dir).*1) f)
        as (sent & Hnet & Hsent).
      exists sent. split; [|done].
      by destruct (server.FetchMessages_range _ _ _ _) as [[?|[]] ?].
    - destruct (Hrange (merge_sort String.le (map_to_list dir).*1) (λ _, tape))
        as (sent & Hnet & Hsent).
      exists sent. split; [|done]. simpl in *.
      by destruct (server.FetchMessages_range _ _ _ _) as [[?|[]] ?]. }
  unfold server.FetchMessages. fold path.
  unfold mbind at 1. unfold server.IO_bind at 1.
  unfold server.DirExists, server.io.
  destruct (server.faults w) as [|[e|] tape] eqn:Hf; simpl; [|done|].
  - case_bool_decide; [done|].
    destruct (Hdir (λ t, t)) as (sent & Hnet & Hsent).
    exists sent. split; [|done]. rewrite <- Hnet. by destruct w.
  - case_bool_decide; [done|]. apply (Hdir (λ _, tape)).
Qed.

End network_more.

(** ** More on the connection handler *)
Section handler_more.
Context `{Libraries}.

#[local] Instance keeps_registry_preorder : PreOrder keeps_registry.
Proof.
  split; unfold keeps_registry; [by intros w|].
  intros w1 w2 w3 [Hc12 Hd12] [Hc23 Hd23]. split; congruence.
Qed.

Lemma keeps_registry_logs f w : keeps_registry w (server.set_logs f w).
Proof. done. Qed.

Lemma keeps_registry_faults f w : keeps_registry w (server.set_faults f w).
Proof. done. Qed.

Lemma keeps_registry_network f w : keeps_registry w (server.set_network f w).
Proof. done. Qed.

Lemma respects_registry_StoreMessage message inboxId messageId :
  respects keeps_registry (server.StoreMessage message inboxId messageId).
Proof.
  intros w.
  destruct (StoreMessage_inboxes message inboxId messageId w)
    as (Hclients & _ & [Hsame|(dir & content & Hdir & Hwritten)]).
  - split; [done|]. by rewrite Hsame.
  - split; [done|]. rewrite Hwritten, dom_insert_L.
    apply elem_of_dom_2 in Hdir. apply set_eq. intros path.
    rewrite elem_of_union, elem_of_singleton. split; [by intros [->|?]|by right].
Qed.

Lemma respects_registry_ReceivedPacket packet :
  respects keeps_registry (server.ReceivedPacket packet).
Proof.
  apply (respects_bind keeps_registry);
    [apply (respects_log keeps_registry keeps_registry_logs)|]. intros _.
  apply (respects_bind keeps_registry); [apply (respects_checked keeps_registry)|].
  intros [[dePacket nextHop] flag].
  repeat case_decide.
  - apply (respects_ForwardPacket keeps_registry keeps_registry_logs
             keeps_registry_faults keeps_registry_network).
  - apply respects_registry_StoreMessage.
  - apply (respects_log keeps_registry keeps_registry_logs).
Qed.

(** X12: only a registration changes the registry or creates an inbox.
    A connection whose packet carries any flag but [ASSIGNE_FLAG] leaves
    [assignedClients] and the set of inbox directories as they were,
    whatever the handler runs into. *)
Theorem only_registration_changes_registry conn (w : server.World) :
  config.Flag (Unmarshal_GeneralPacket (take 1024 (conn_Read conn).1)).1
  ≠ server.ASSIGNE_FLAG →
  server.assignedClients (server.HandleConnection conn w).2 = server.assignedClients w
  ∧ dom (server.inboxes (server.HandleConnection conn w).2) = dom (server.inboxes w).
Proof.
  intros Hflag. change (keeps_registry w (server.HandleConnection conn w).2).
  unfold server.HandleConnection.
  destruct (Unmarshal_GeneralPacket _) as [packet uerr]. simpl in Hflag.
  rewrite decide_False by done. repeat case_decide.
  - pose proof (respects_registry_ReceivedPacket (config.Data packet) w).
    by destruct (server.ReceivedPacket _ w) as [[?|?] ?].
  - pose proof (respects_HandlePullRequest keeps_registry keeps_registry_logs
                  keeps_registry_faults keeps_registry_network (config.Data packet) w).
    by destruct (server.HandlePullRequest _ w) as [[?|?] ?].
  - done.
Qed.

(** X13: a request that cannot be decoded costs a log entry and nothing
    else.  For a connection that is read and framed without error and
    whose body does not decode - the client configuration of an ASSIGN,
    the Sphinx packet of a COMM, the pull request of a PULL - the
    provider keeps accepting, the registry, the inbox tree, the network
    and the pending faults are unchanged, and the last log entry is the
    decoding error. *)
Theorem undecodable_request_only_logged conn e (w : server.World) :
  let packet := (Unmarshal_GeneralPacket (take 1024 (conn_Read conn).1)).1 in
  (conn_Read conn).2 = None →
  (Unmarshal_GeneralPacket (take 1024 (conn_Read conn).1)).2 = None →
  (config.Flag packet = server.ASSIGNE_FLAG
   ∧ (Unmarshal_ClientConfig (config.Data packet)).2 = Some e)
  ∨ (config.Flag packet = server.COMM_FLAG
     ∧ (ProcessPacket (config.Data packet)).2 = Some e)
  ∨ (config.Flag packet = server.PULL_FLAG
     ∧ (Unmarshal_PullRequest (config.Data packet)).2 = Some e) →
  let after := server.accept_iteration (AcceptConn conn) w in
  after.1 = Accepting
  ∧ same_store w after.2
  ∧ server.network after.2 = server.network w
  ∧ server.faults after.2 = server.faults w
  ∧ last (server.logs after.2) = Some (server.Error, Error_ e).
Proof.
  intros packet Hread Hframe Hbody after. subst after packet.
  unfold server.accept_iteration, server.HandleConnection. rewrite Hread.
  destruct (Unmarshal_GeneralPacket _) as [packet uerr]. simpl in *. subst uerr.
  destruct Hbody as [[Hflag Hbody]|[[Hflag Hbody]|[Hflag Hbody]]];
    rewrite Hflag; simpl.
  - unfold server.HandleAssignRequest, server.RegisterNewClient, server.checked.
    rewrite Hbody. simpl. by rewrite last_snoc.
  - unfold server.ReceivedPacket, server.checked. rewrite Hbody. simpl.
    by rewrite last_snoc.
  - unfold server.HandlePullRequest, server.checked. rewrite Hbody. simpl.
    by rewrite last_snoc.
Qed.

(** X14: a packet with an unknown flag is dropped.  Whatever the read
    and the framing reported, the handler only adds the log entry
    "Packet flag not recognised. Packet dropped"; and when they reported
    no error the loop logs no error either. *)
Theorem unknown_flag_dropped conn (w : server.World) :
  let packet := (Unmarshal_GeneralPacket (take 1024 (conn_Read conn).1)).1 in
  config.Flag packet ≠ server.ASSIGNE_FLAG →
  config.Flag packet ≠ server.COMM_FLAG →
  config.Flag packet ≠ server.PULL_FLAG →
  (server.HandleConnection conn w).2
  = server.set_logs
      (λ l, l ++ [(server.Info, "Packet flag not recognised. Packet dropped")]) w
  ∧ ((conn_Read conn).2 = None →
     (Unmarshal_GeneralPacket (take 1024 (conn_Read conn).1)).2 = None →
     server.accept_iteration (AcceptConn conn) w
     = (Accepting,
        server.set_logs
          (λ l, l ++ [(server.Info, "Packet flag not recognised. Packet dropped")])
          (server.set_logs
             (λ l, l ++ [(server.Info,
                " Received new connection from " +:+ RemoteAddr conn)]) w))).
Proof.
  intros packet Hassign Hcomm Hpull. subst packet.
  unfold server.accept_iteration, server.HandleConnection.
  destruct (Unmarshal_GeneralPacket _) as [packet uerr]. simpl in *.
  rewrite !decide_False by done. simpl. split; [done|].
  intros -> ->. done.
Qed.

(** X15: a failed read does not stop the handler.  The read error is
    the first value the handler sends on [errs]; the handler then
    decodes and dispatches the bytes that were read, and leaves the
    provider as the handler of a connection whose read returned the same
    bytes without error leaves it. *)
Theorem read_error_does_not_stop_handler remote data e (w : server.World) :
  let failed := {| RemoteAddr := remote; conn_Read := (data, Some e) |} in
  let clean := {| RemoteAddr := remote; conn_Read := (data, None) |} in
  head (server.HandleConnection failed w).1 = Some (Some e)
  ∧ (server.HandleConnection failed w).2 = (server.HandleConnection clean w).2.
Proof.
  intros failed clean.
  unfold server.HandleConnection. simpl.
  destruct (Unmarshal_GeneralPacket _) as [packet uerr].
  repeat case_decide; repeat case_match; simplify_eq/=; done.
Qed.

End handler_more.

(** ** More on pull requests *)
Section pull_more.
Context `{Libraries}.

(** An authenticated pull when no operation fails and the inbox holds
    messages. *)
Lemma HandlePullRequest_delivers rqsBytes dir (w : server.World) :
  let request := (Unmarshal_PullRequest rqsBytes).1 in
  let logged := server.set_logs (λ l, l ++ [(server.Info,
      " Processing pull request: " +:+ config.ClientId request +:+ " "
      +:+ string_of_list_byte (config.Token request))]) w in
  (Unmarshal_PullRequest rqsBytes).2 = None →
  server.AuthenticateUser w (config.ClientId request) (config.Token request) = true →
  server.faults w = [] →
  server.inboxes w !! ("./inboxes/" +:+ config.ClientId request) = Some dir →
  dir ≠ ∅ →
  (∀ name dat, dir !! name = Some dat →
     ∃ wrapped, WrapWithFlag server.COMM_FLAG dat = inr wrapped) →
  ∃ fetched sent,
    server.FetchMessages_range ("./inboxes/" +:+ config.ClientId request)
      (config.ClientId request) (merge_sort String.le (map_to_list dir).*1) logged
    = (inr tt, fetched)
    ∧ server.HandlePullRequest rqsBytes w
      = (inr tt,
         server.set_logs (λ l, l ++ [(server.Info,
           "All messages from the inbox succesfuly sent to the client.")]) fetched)
    ∧ same_store w fetched
    ∧ server.network fetched = server.network w ++ sent
    ∧ Forall2 (delivered (registered_address w (config.ClientId request)) dir)
        (merge_sort String.le (map_to_list dir).*1) sent.
Proof.
  intros request logged Hdecoded Hauth Hf Hdir Hne Hwraps.
  set (path := "./inboxes/" +:+ config.ClientId request) in *.
  set (files := merge_sort String.le (map_to_list dir).*1).
  destruct (FetchMessages_range_returns path (config.ClientId request) files logged dir)
    as [fetched Hrun]; [done..| |].
  { apply Forall_forall. intros f [dat Hdat]%listing_elem_of.
    destruct (Hwraps f dat Hdat) as [wrapped Hwrapped]. by exists dat, wrapped. }
  pose proof Hrun as Hrun'.
  apply (FetchMessages_range_no_faults _ _ _ _ _ dir) in Hrun'
    as (_ & Hstore & sent & Hnet & Hsent); [|done..].
  exists fetched, sent. split; [done|]. split; [|done].
  unfold server.HandlePullRequest, server.checked. rewrite Hdecoded. fold request.
  unfold mbind at 1. unfold server.IO_bind at 1. simpl.
  unfold mbind at 1. unfold server.IO_bind at 1. unfold server.log, server.modify.
  fold logged.
  unfold mbind at 1. unfold server.IO_bind at 1. unfold server.get.
  change (server.AuthenticateUser logged) with (server.AuthenticateUser w).
  rewrite Hauth.
  unfold mbind at 1. unfold server.IO_bind at 1.
  rewrite FetchMessages_no_faults by done. fold path.
  change (server.inboxes logged) with (server.inboxes w). rewrite Hdir.
  rewrite decide_False by (by rewrite map_size_empty_iff).
  fold files. by rewrite Hrun.
Qed.

(** X16: a client id unknown to the registry is not turned away when it
    pulls with the empty token.  The request passes authentication and
    is answered as the fetch of that id's inbox is: with the error of
    the fetch, or with none.  When an inbox directory of that id exists
    and holds messages (the directories outlive the registry), the
    provider reads the first message and dials the address ":" of the
    zero record; when that dial fails the request fails with the error
    of the dial, nothing has been sent, and the inbox is as it was. *)
Theorem unregistered_pull_with_empty_token rqsBytes (w : server.World) :
  let request := (Unmarshal_PullRequest rqsBytes).1 in
  let logged := server.set_logs (λ l, l ++ [(server.Info,
      " Processing pull request: " +:+ config.ClientId request +:+ " "
      +:+ string_of_list_byte (config.Token request))]) w in
  (Unmarshal_PullRequest rqsBytes).2 = None →
  config.Token request = [] →
  server.assignedClients w !! config.ClientId request = None →
  (server.HandlePullRequest rqsBytes w).1
  = sum_map id (λ _, tt) (server.FetchMessages (config.ClientId request) logged).1
  ∧ ∀ dir e tape,
      server.inboxes w !! ("./inboxes/" +:+ config.ClientId request) = Some dir →
      dir ≠ ∅ →
      (∀ name dat, dir !! name = Some dat →
         ∃ wrapped, WrapWithFlag server.COMM_FLAG dat = inr wrapped) →
      server.faults w = [None; None; None; Some e] ++ tape →
      server.HandlePullRequest rqsBytes w
      = (inl e,
         server.set_faults (λ _, tape)
           (server.set_logs
              (λ l, l ++ [(server.Info, "Found stored message for address :")])
              logged)).
Proof.
  intros request logged Hdecoded Htoken Habsent.
  assert (Hauth : server.AuthenticateUser w (config.ClientId request)
                    (config.Token request) = true).
  { apply AuthenticateUser_spec. unfold server.client_record.
    by rewrite Habsent, Htoken. }
  assert (Hpull : server.HandlePullRequest rqsBytes w
            = match server.FetchMessages (config.ClientId request) logged with
              | (inl err, w') => (inl err, w')
              | (inr signal, w') =>
                  (inr tt,
                   if decide (signal = "NI") then
                     server.set_logs (λ l, l ++ [(server.Info,
                       "Inbox does not exist. Sending signal to client.")]) w'
                   else if decide (signal = "EI") then
                     server.set_logs (λ l, l ++ [(server.Info,
                       "Inbox is empty. Sending info to the client.")]) w'
                   else if decide (signal = "SI") then
                     server.set_logs (λ l, l ++ [(server.Info,
                       "All messages from the inbox succesfuly sent to the client.")]) w'
                   else w')
              end).
  { unfold server.HandlePullRequest, server.checked. rewrite Hdecoded. fold request.
    unfold mbind at 1. unfold server.IO_bind at 1. simpl.
    unfold mbind at 1. unfold server.IO_bind at 1. unfold server.log, server.modify.
    fold logged.
    unfold mbind at 1. unfold server.IO_bind at 1. unfold server.get.
    change (server.AuthenticateUser logged) with (server.AuthenticateUser w).
    rewrite Hauth.
    unfold mbind at 1. unfold server.IO_bind at 1.
    destruct (server.FetchMessages _ logged) as [[err|signal] w']; [done|].
    by repeat case_decide. }
  split.
  - rewrite Hpull.
    by destruct (server.FetchMessages _ logged) as [[err|signal] w'].
  - intros dir e tape Hdir Hne Hwraps Hf. rewrite Hpull.
    set (path := "./inboxes/" +:+ config.ClientId request) in *.
    destruct (merge_sort String.le (map_to_list dir).*1) as [|f rest] eqn:Hfiles.
    { exfalso. apply Hne, map_size_empty_iff.
      by rewrite <- listing_length, Hfiles. }
    assert (Hf_in : f ∈ merge_sort String.le (map_to_list dir).*1)
      by (rewrite Hfiles; left).
    apply listing_elem_of in Hf_in as [dat Hdat].
    destruct (Hwraps f dat Hdat) as [wrapped Hwrapped].
    unfold server.FetchMessages, server.DirExists, server.ReadDir. fold path.
    unfold mbind at 1. unfold server.IO_bind at 1.
    rewrite (io_head_None _ logged ([None; None; Some e] ++ tape)) by done.
    simpl. rewrite Hdir. simpl.
    unfold mbind at 1. unfold server.IO_bind at 1.
    rewrite (io_head_None _ _ ([None; Some e] ++ tape)) by done.
    simpl. rewrite Hdir, Hfiles. simpl.
    unfold mbind, server.IO_bind, server.ReadFile, server.get, server.log,
      server.modify, server.of_sum, server.Send, server.Dial, server.conn_Write,
      mret, server.IO_ret.
    rewrite (io_head_None _ _ ([Some e] ++ tape)) by done.
    simpl. rewrite Hdir. simpl. rewrite Hdat. simpl. rewrite Hwrapped.
    unfold server.io. simpl.
    unfold server.client_record. simpl. fold request. rewrite Habsent. simpl.
    done.
Qed.

(** X17: register, receive, pull.  On a provider where nothing fails, a
    client without inbox registers, a Sphinx packet for that client
    reaches its final hop, and the client pulls with the token it was
    sent: the three handlers return no error, the network has gained the
    token envelope and then the payload in a [COMM_FLAG] envelope, both
    to the address given at registration, and the payload is still in
    the inbox. *)
Theorem register_receive_pull assign comm pull payload nextHop tokenBytes envelope
    (w : server.World) :
  let clientConf := (Unmarshal_ClientConfig assign).1 in
  let token := MD5Hash (list_byte_of_string ("TMP_Token" +:+ config.Id clientConf)) in
  let address := config.Host clientConf +:+ ":" +:+ config.Port clientConf in
  let path := "./inboxes/" +:+ config.Id clientConf in
  server.faults w = [] →
  server.inboxes w !! path = None →
  (Unmarshal_ClientConfig assign).2 = None →
  WrapWithFlag server.TOKEN_FLAG token = inr tokenBytes →
  ProcessPacket comm = (payload, nextHop, FINAL, None) →
  sphinx.Id nextHop = config.Id clientConf →
  Unmarshal_PullRequest pull
  = ({| config.ClientId := config.Id clientConf; config.Token := token |}, None) →
  WrapWithFlag server.COMM_FLAG payload = inr envelope →
  let registered := server.HandleAssignRequest assign w in
  let received := server.ReceivedPacket comm registered.2 in
  let pulled := server.HandlePullRequest pull received.2 in
  registered.1 = inr tt ∧ received.1 = inr tt ∧ pulled.1 = inr tt
  ∧ server.network pulled.2
    = server.network w ++ [(address, tokenBytes); (address, envelope)]
  ∧ server.inboxes pulled.2 !! path = Some {[ "TMP_MESSAGE_ID.txt" := payload ]}.
Proof.
  intros clientConf token address path Hf Hfresh Hdecoded Htoken Hunwrap Hhop
    Hpull Hwrap registered received pulled.
  subst path.
  (* registration *)
  assert (Hregistered : ∃ w1,
            registered = (inr tt, w1)
            ∧ server.faults w1 = []
            ∧ server.network w1 = server.network w ++ [(address, tokenBytes)]
            ∧ server.inboxes w1
              = <["./inboxes/" +:+ config.Id clientConf := ∅]> (server.inboxes w)
            ∧ server.assignedClients w1
              = <[config.Id clientConf := registered_record clientConf]>
                  (server.assignedClients w)).
  { subst registered.
    unfold server.HandleAssignRequest, server.RegisterNewClient, server.checked.
    rewrite Hdecoded. fold clientConf.
    unfold mbind, mret, server.IO_bind, server.IO_ret, server.log, server.modify,
      server.DirExists, server.MkdirAll, server.of_sum. simpl.
    rewrite io_no_faults by done. simpl.
    rewrite Hfresh. simpl.
    rewrite io_no_faults by done. simpl. fold token. rewrite Htoken.
    rewrite Send_no_faults by done. simpl. rewrite ?Hfresh.
    eexists. split; [reflexivity|]. simpl. by rewrite Hfresh. }
  destruct Hregistered as (w1 & -> & Hf1 & Hnet1 & Hinboxes1 & Hclients1).
  (* the final hop *)
  assert (Hdir1 : server.inboxes w1 !! ("./inboxes/" +:+ sphinx.Id nextHop) = Some ∅).
  { rewrite Hhop. by rewrite Hinboxes1, lookup_insert_eq. }
  assert (Hreceived : received
            = server.StoreMessage payload (sphinx.Id nextHop) "TMP_MESSAGE_ID"
                (server.set_logs (λ l, l ++ [(server.Info,
                   "Received new sphinx packet")]) w1)).
  { subst received. simpl. by rewrite (ReceivedPacket_unwrapped _ _ _ _ _ Hunwrap). }
  rewrite (StoreMessage_no_faults _ _ _ ∅) in Hreceived by done.
  rewrite Hhop in Hreceived. rewrite insert_empty in Hreceived.
  subst pulled. rewrite Hreceived. simpl.
  set (w2 := server.set_logs _ _).
  assert (Hdir2 : server.inboxes w2 !! ("./inboxes/" +:+ config.Id clientConf)
                  = Some {[ "TMP_MESSAGE_ID.txt" := payload ]})
    by apply lookup_insert_eq.
  assert (Hrecord : server.client_record w2 (config.Id clientConf)
                    = registered_record clientConf).
  { unfold server.client_record. simpl. by rewrite Hclients1, lookup_insert_eq. }
  assert (Hauth : server.AuthenticateUser w2 (config.Id clientConf) token = true).
  { apply AuthenticateUser_spec. by rewrite Hrecord. }
  assert (Hrequest : (Unmarshal_PullRequest pull).1
            = {| config.ClientId := config.Id clientConf; config.Token := token |})
    by (by rewrite Hpull).
  destruct (HandlePullRequest_delivers pull {[ "TMP_MESSAGE_ID.txt" := payload ]} w2)
    as (fetched & sent & _ & Hrun & [Hinboxes3 _] & Hnet3 & Hsent).
  { by rewrite Hpull. }
  { by rewrite Hrequest. }
  { done. }
  { by rewrite Hrequest. }
  { apply insert_non_empty. }
  { intros name dat [<- <-]%lookup_singleton_Some. eauto. }
  rewrite Hrun. simpl. do 3 (split; [done|]). split.
  - rewrite Hnet3. rewrite Hrequest in Hsent. simpl in Hsent.
    rewrite map_to_list_singleton in Hsent. simpl in Hsent.
    apply Forall2_cons_inv_l in Hsent as ([a pkt] & rest & (Ha & dat & Hdat & Hpkt)
                                          & ->%Forall2_nil_inv_l & ->).
    apply lookup_singleton_Some in Hdat as [_ <-]. simpl in *.
    rewrite Hwrap in Hpkt. injection Hpkt as <-. subst a.
    unfold registered_address. rewrite Hrecord. simpl.
    change (server.network w2) with (server.network w1).
    by rewrite Hnet1, <- app_assoc.
  - by rewrite Hinboxes3.
Qed.

End pull_more.

Section handler_more_examples.
Local Existing Instance toy.libraries.

Lemma StoreMessage_unknown_recipient_witness :
  ∃ e, (server.StoreMessage (list_byte_of_string "hi") "carol" "m1" toy.bob_has_mail).1
       = inl e
     ∧ server.inboxes
         (server.StoreMessage (list_byte_of_string "hi") "carol" "m1" toy.bob_has_mail).2
       = server.inboxes toy.bob_has_mail
     ∧ server.assignedClients
         (server.StoreMessage (list_byte_of_string "hi") "carol" "m1" toy.bob_has_mail).2
       = server.assignedClients toy.bob_has_mail
     ∧ server.network
         (server.StoreMessage (list_byte_of_string "hi") "carol" "m1" toy.bob_has_mail).2
       = server.network toy.bob_has_mail
     ∧ server.logs
         (server.StoreMessage (list_byte_of_string "hi") "carol" "m1" toy.bob_has_mail).2
       = server.logs toy.bob_has_mail.
Proof.
  exact (StoreMessage_unknown_recipient (list_byte_of_string "hi") "carol" "m1"
           toy.bob_has_mail eq_refl).
Defined.

Lemma StoreMessage_frame_witness :
  server.inboxes
    (server.StoreMessage (list_byte_of_string "news") "bob" "m2" toy.bob_has_mail).2
  !! "./inboxes/bob" ≫= (.!! "TMP_MESSAGE_ID.txt")
  = server.inboxes toy.bob_has_mail !! "./inboxes/bob" ≫= (.!! "TMP_MESSAGE_ID.txt").
Proof.
  apply (StoreMessage_frame (list_byte_of_string "news") "bob" "m2" toy.bob_has_mail).
  discriminate.
Defined.

Lemma store_then_fetch_witness :
  ∃ fetched sent,
    server.FetchMessages "bob"
      (server.StoreMessage (list_byte_of_string "news") "bob" "m2" toy.bob_has_mail).2
    = (inr "SI", fetched)
    ∧ server.network fetched = server.network toy.bob_has_mail ++ sent
    ∧ (registered_address toy.bob_has_mail "bob",
       [xc6] ++ list_byte_of_string "news") ∈ sent
    ∧ length sent
      = size (<["m2" +:+ ".txt" := list_byte_of_string "news"]>
                ({[ "TMP_MESSAGE_ID.txt" := list_byte_of_string "hi" ]}
                   : gmap string (list byte))).
Proof.
  refine (store_then_fetch (H := toy.libraries) (list_byte_of_string "news") "bob" "m2"
            {[ "TMP_MESSAGE_ID.txt" := list_byte_of_string "hi" ]}
            ([xc6] ++ list_byte_of_string "news") toy.bob_has_mail
            eq_refl eq_refl eq_refl _).
  intros name dat _. eexists. reflexivity.
Defined.

Lemma write_failure_is_silent_witness :
  let flaky :=
    server.set_faults (λ _, [None; Some (errorString "write: broken pipe")])
      toy.bob_has_mail in
  (server.Send (list_byte_of_string "packet") "10.0.0.9:9000" flaky).1 = inr tt
  ∧ server.network (server.Send (list_byte_of_string "packet") "10.0.0.9:9000" flaky).2
    = server.network flaky.
Proof.
  intros flaky.
  exact (proj1 (proj2 (write_failure_is_silent (H := toy.libraries)
                         (list_byte_of_string "packet") "10.0.0.9:9000" flaky))
           (errorString "write: broken pipe") [] eq_refl).
Defined.

Lemma FetchMessages_sends_only_to_client_witness :
  ∃ sent,
    server.network (server.FetchMessages "bob" toy.bob_has_mail).2
    = server.network toy.bob_has_mail ++ sent
    ∧ ∀ pkt, pkt ∈ sent →
        pkt.1 = registered_address toy.bob_has_mail "bob"
        ∧ ∃ name dat,
            server.inboxes toy.bob_has_mail !! ("./inboxes/" +:+ "bob")
              ≫= (.!! name) = Some dat
            ∧ WrapWithFlag server.COMM_FLAG dat = inr pkt.2.
Proof. exact (FetchMessages_sends_only_to_client "bob" toy.bob_has_mail). Defined.

Lemma only_registration_changes_registry_witness :
  let conn := {| RemoteAddr := "10.0.0.3:4000";
                 conn_Read := ([xc6; xf0] ++ list_byte_of_string "late", None) |} in
  server.assignedClients (server.HandleConnection conn toy.bob_has_mail).2
  = server.assignedClients toy.bob_has_mail
  ∧ dom (server.inboxes (server.HandleConnection conn toy.bob_has_mail).2)
    = dom (server.inboxes toy.bob_has_mail).
Proof.
  intros conn.
  apply (only_registration_changes_registry conn toy.bob_has_mail).
  vm_compute. discriminate.
Defined.

Lemma undecodable_request_only_logged_witness :
  let conn := {| RemoteAddr := "10.0.0.3:4000"; conn_Read := ([xff], None) |} in
  let after := server.accept_iteration (AcceptConn conn) toy.bob_has_mail in
  after.1 = Accepting
  ∧ same_store toy.bob_has_mail after.2
  ∧ server.network after.2 = server.network toy.bob_has_mail
  ∧ server.faults after.2 = server.faults toy.bob_has_mail
  ∧ last (server.logs after.2) = Some (server.Error, "unexpected EOF").
Proof.
  intros conn.
  refine (undecodable_request_only_logged (H := toy.libraries) conn
            (errorString "unexpected EOF") toy.bob_has_mail eq_refl eq_refl _).
  right. right. split; reflexivity.
Defined.

Lemma unknown_flag_dropped_witness :
  let conn := {| RemoteAddr := "10.0.0.3:4000";
                 conn_Read := ([x00] ++ list_byte_of_string "noise", None) |} in
  (server.HandleConnection conn toy.bob_has_mail).2
  = server.set_logs
      (λ l, l ++ [(server.Info, "Packet flag not recognised. Packet dropped")])
      toy.bob_has_mail.
Proof.
  intros conn.
  apply (unknown_flag_dropped (H := toy.libraries) conn toy.bob_has_mail);
    vm_compute; discriminate.
Defined.

Lemma unregistered_pull_with_empty_token_witness :
  let refused := errorString "dial tcp :0: connect: connection refused" in
  let restarted :=
    server.set_faults (λ _, [None; None; None; Some refused])
      (server.set_assignedClients (λ _, ∅) toy.bob_has_mail) in
  (server.HandlePullRequest (list_byte_of_string "bob|") restarted).1 = inl refused
  ∧ server.network (server.HandlePullRequest (list_byte_of_string "bob|") restarted).2
    = server.network restarted
  ∧ server.inboxes (server.HandlePullRequest (list_byte_of_string "bob|") restarted).2
    = server.inboxes restarted.
Proof.
  intros refused restarted.
  destruct (unregistered_pull_with_empty_token (H := toy.libraries)
              (list_byte_of_string "bob|") restarted eq_refl eq_refl eq_refl)
    as [_ Hrefused].
  rewrite (Hrefused {[ "TMP_MESSAGE_ID.txt" := list_byte_of_string "hi" ]} refused []
             eq_refl).
  - done.
  - apply insert_non_empty.
  - intros name dat _. eexists. reflexivity.
  - reflexivity.
Defined.

Lemma register_receive_pull_witness :
  let registered :=
    server.HandleAssignRequest (list_byte_of_string "bob|10.0.0.9") toy.fresh in
  let received :=
    server.ReceivedPacket ([xf0] ++ list_byte_of_string "hello") registered.2 in
  let pulled :=
    server.HandlePullRequest (list_byte_of_string "bob|bobnekoT_PMT") received.2 in
  registered.1 = inr tt ∧ received.1 = inr tt ∧ pulled.1 = inr tt
  ∧ server.network pulled.2
    = server.network toy.fresh
      ++ [("10.0.0.9" +:+ ":" +:+ "9000",
           [x78; x41; x39] ++ list_byte_of_string "bobnekoT_PMT");
          ("10.0.0.9" +:+ ":" +:+ "9000", [xc6] ++ list_byte_of_string "hello")]
  ∧ server.inboxes pulled.2 !! ("./inboxes/" +:+ "bob")
    = Some {[ "TMP_MESSAGE_ID.txt" := list_byte_of_string "hello" ]}.
Proof.
  exact (register_receive_pull (H := toy.libraries)
           (list_byte_of_string "bob|10.0.0.9")
           ([xf0] ++ list_byte_of_string "hello")
           (list_byte_of_string "bob|bobnekoT_PMT")
           (list_byte_of_string "hello") toy.hop
           ([x78; x41; x39] ++ list_byte_of_string "bobnekoT_PMT")
           ([xc6] ++ list_byte_of_string "hello") toy.fresh
           eq_refl eq_refl eq_refl eq_refl eq_refl eq_refl eq_refl eq_refl).
Defined.

End handler_more_examples.

(** ** The client's start-up *)
Section client_more.

Context {MixPubs ClientPubs : Type}.
Variable OpenDatabase : string → string → error + client_startup.Database.
Variable MixPubsFromBytes : list byte → error + MixPubs.
Variable ClientPubsFromBytes : list byte → error + ClientPubs.

(** The scanning loop returns exactly when every row decodes, and then
    it has appended the decoded records in the order of the rows. *)
Lemma scan_records_Returned {A} (FromBytes : list byte → error + A) records known all :
  client_startup.scan_records FromBytes records known = Returned all
  ↔ ∃ new, Forall2 (client_startup.decodes FromBytes) records new
           ∧ all = known ++ new.
Proof.
  revert known. induction records as [|row rest IH]; intros known; simpl.
  - split.
    + intros [= <-]. exists []. by rewrite app_nil_r.
    + intros (new & ->%Forall2_nil_inv_l & ->). by rewrite app_nil_r.
  - split.
    + destruct row as [err|result]; [done|].
      unfold client_startup.Config_bytes.
      destruct (result !! "Config") as [[b|dynamic_type]|] eqn:Hcell; [|done..].
      simpl. destruct (FromBytes b) as [err|pubs] eqn:Hpubs; [done|].
      intros (new & Hnew & ->)%IH. exists (pubs :: new).
      split; [|by rewrite <- app_assoc].
      constructor; [|done]. by exists result, b.
    + intros (new & Hnew & ->).
      apply Forall2_cons_inv_l in Hnew
        as (pubs & new' & (result & b & -> & Hcell & Hpubs) & Hnew' & ->).
      unfold client_startup.Config_bytes. rewrite Hcell. simpl. rewrite Hpubs.
      apply IH. exists new'. split; [done|]. by rewrite <- app_assoc.
Qed.

(** X19: reading the PKI appends.  When the database opens and the
    table is queried without error, [ReadInMixnetPKI] returns exactly
    when every row scans, holds a byte slice under ["Config"] and
    decodes; the decoded mixes are then appended to [ActiveMixes] in the
    order of the rows and [OtherClients] is untouched, so that reading a
    second time appends the same mixes once more.  [ReadInClientsPKI]
    does the same for [OtherClients] with the table "Clients". *)
Theorem ReadInPKI_appends pkiName db (c : client_startup.Client) out :
  OpenDatabase pkiName "sqlite3" = inr db →
  (∀ records c',
     db "Mixes" = inr records →
     ((client_startup.ReadInMixnetPKI OpenDatabase MixPubsFromBytes pkiName c out).1
      = Returned c'
      ↔ ∃ mixes,
          Forall2 (client_startup.decodes MixPubsFromBytes) records mixes
          ∧ c' = {| client_startup.ActiveMixes := client_startup.ActiveMixes c ++ mixes;
                    client_startup.OtherClients := client_startup.OtherClients c |})
     ∧ ∀ mixes out',
         Forall2 (client_startup.decodes MixPubsFromBytes) records mixes →
         (client_startup.ReadInMixnetPKI OpenDatabase MixPubsFromBytes pkiName
            {| client_startup.ActiveMixes := client_startup.ActiveMixes c ++ mixes;
               client_startup.OtherClients := client_startup.OtherClients c |} out').1
         = Returned
             {| client_startup.ActiveMixes :=
                  client_startup.ActiveMixes c ++ mixes ++ mixes;
                client_startup.OtherClients := client_startup.OtherClients c |})
  ∧ (∀ records c',
       db "Clients" = inr records →
       (client_startup.ReadInClientsPKI OpenDatabase ClientPubsFromBytes pkiName c out).1
       = Returned c'
       ↔ ∃ clients,
           Forall2 (client_startup.decodes ClientPubsFromBytes) records clients
           ∧ c' = {| client_startup.ActiveMixes := client_startup.ActiveMixes c;
                     client_startup.OtherClients :=
                       client_startup.OtherClients c ++ clients |}).
Proof.
  intros Hopen. split.
  - intros records c' Hquery. split.
    + unfold client_startup.ReadInMixnetPKI, client_startup.ConnectToPKI.
      rewrite Hopen, Hquery.
      destruct (client_startup.scan_records _ _ _) as [all|msg] eqn:Hscan; simpl.
      * apply scan_records_Returned in Hscan as (mixes & Hmixes & ->).
        split.
        -- intros [= <-]. by exists mixes.
        -- intros (mixes' & Hmixes' & ->). do 2 f_equal.
           assert (Hboth : client_startup.scan_records MixPubsFromBytes records
                             (client_startup.ActiveMixes c)
                           = Returned (client_startup.ActiveMixes c ++ mixes'))
             by (apply scan_records_Returned; eauto).
           assert (Hfirst : client_startup.scan_records MixPubsFromBytes records
                              (client_startup.ActiveMixes c)
                            = Returned (client_startup.ActiveMixes c ++ mixes))
             by (apply scan_records_Returned; eauto).
           congruence.
      * split; [done|]. intros (mixes & Hmixes & ->).
        assert (client_startup.scan_records MixPubsFromBytes records
                  (client_startup.ActiveMixes c)
                = Returned (client_startup.ActiveMixes c ++ mixes)) as Hok
          by (apply scan_records_Returned; eauto).
        congruence.
    + intros mixes out' Hmixes.
      unfold client_startup.ReadInMixnetPKI, client_startup.ConnectToPKI.
      rewrite Hopen, Hquery. simpl.
      assert (client_startup.scan_records MixPubsFromBytes records
                (client_startup.ActiveMixes c ++ mixes)
              = Returned ((client_startup.ActiveMixes c ++ mixes) ++ mixes)) as ->
        by (apply scan_records_Returned; eauto).
      simpl. by rewrite <- app_assoc.
  - intros records c' Hquery.
    unfold client_startup.ReadInClientsPKI, client_startup.ConnectToPKI.
    rewrite Hopen, Hquery.
    destruct (client_startup.scan_records _ _ _) as [all|msg] eqn:Hscan; simpl.
    + apply scan_records_Returned in Hscan as (clients & Hclients & ->).
      split.
      * intros [= <-]. by exists clients.
      * intros (clients' & Hclients' & ->). do 2 f_equal.
        assert (Hboth : client_startup.scan_records ClientPubsFromBytes records
                          (client_startup.OtherClients c)
                        = Returned (client_startup.OtherClients c ++ clients'))
          by (apply scan_records_Returned; eauto).
        assert (Hfirst : client_startup.scan_records ClientPubsFromBytes records
                           (client_startup.OtherClients c)
                         = Returned (client_startup.OtherClients c ++ clients))
          by (apply scan_records_Returned; eauto).
        congruence.
    + split; [done|]. intros (clients & Hclients & ->).
      assert (client_startup.scan_records ClientPubsFromBytes records
                (client_startup.OtherClients c)
              = Returned (client_startup.OtherClients c ++ clients)) as Hok
        by (apply scan_records_Returned; eauto).
      congruence.
Qed.

End client_more.

Lemma toy_pki_rows_decode :
  Forall2 (client_startup.decodes toy_pki.FromBytes)
    [toy_pki.row "mix1"; toy_pki.row "mix2"] ["mix1"; "mix2"].
Proof.
  repeat constructor; eexists _, _; (split; [reflexivity|]); split; reflexivity.
Qed.

Lemma ReadInPKI_appends_witness :
  (client_startup.ReadInMixnetPKI toy_pki.OpenDatabase toy_pki.FromBytes "pki.db"
     toy_pki.empty_client []).1
  = Returned {| client_startup.ActiveMixes := ["mix1"; "mix2"];
                client_startup.OtherClients := [] |}
  ∧ (client_startup.ReadInMixnetPKI toy_pki.OpenDatabase toy_pki.FromBytes "pki.db"
       {| client_startup.ActiveMixes := ["mix1"; "mix2"];
          client_startup.OtherClients := ([] : list string) |} []).1
    = Returned {| client_startup.ActiveMixes := ["mix1"; "mix2"; "mix1"; "mix2"];
                  client_startup.OtherClients := [] |}.
Proof.
  destruct (ReadInPKI_appends toy_pki.OpenDatabase toy_pki.FromBytes toy_pki.FromBytes
              "pki.db" toy_pki.database toy_pki.empty_client [] eq_refl)
    as [Hmixes _].
  split.
  - apply (Hmixes [toy_pki.row "mix1"; toy_pki.row "mix2"] _ eq_refl).
    exists ["mix1"; "mix2"]. split; [apply toy_pki_rows_decode|reflexivity].
  - apply (proj2 (Hmixes [toy_pki.row "mix1"; toy_pki.row "mix2"]
                    toy_pki.empty_client eq_refl) ["mix1"; "mix2"] []).
    apply toy_pki_rows_decode.
Defined.

(** ** Constructing the provider *)
Section constructor_more.
Variable Marshal : server_startup.MixConfig → error + list byte.

(** X21: a provider that has just been constructed knows nobody.  When
    [NewProviderServer] succeeds the provider listens on [host:port],
    its configuration holds the id, host, port and public key it was
    given, exactly one row, with the marshalled configuration, has been
    added to the PKI, and the registry is empty: every client id
    authenticates with the empty token and with no other. *)
Theorem new_provider_knows_nobody id host port pubKey prvKey pkiPath
    (o o' : server_startup.Outside) p :
  server_startup.NewProviderServer Marshal id host port pubKey prvKey pkiPath o
  = (inr p, o') →
  server_startup.assignedClients p = ∅
  ∧ server_startup.Config p
    = {| server_startup.Config_Id := id; server_startup.Config_Host := host;
         server_startup.Config_Port := port; server_startup.Config_PubKey := pubKey |}
  ∧ server_startup.listener p = Some (host +:+ ":" +:+ port)
  ∧ (∃ configBytes,
       Marshal (server_startup.Config p) = inr configBytes
       ∧ server_startup.pki_rows o'
         = server_startup.pki_rows o ++ [(pkiPath, "Pki", id, "Provider", configBytes)])
  ∧ server_startup.listening o'
    = server_startup.listening o ++ [host +:+ ":" +:+ port]
  ∧ ∀ (w : server.World) clientId presented,
      server.assignedClients w = server_startup.assignedClients p →
      server.AuthenticateUser w clientId presented = true ↔ presented = [].
Proof.
  unfold server_startup.NewProviderServer, server_startup.AddToDatabase,
    server_startup.ResolveTCPAddress, server_startup.ListenTCP,
    server_startup.boot_io. simpl.
  destruct (Marshal _) as [err|configBytes] eqn:Hmarshal; [done|].
  destruct o as [rows ports tape].
  destruct tape as [|[e1|] [|[e2|] [|[e3|] tape]]]; simpl; try done;
    intros [= <- <-]; simpl; (repeat split; eauto);
    try (intros Hauth; apply AuthenticateUser_spec in Hauth;
         unfold server.client_record in Hauth;
         match goal with Hw : server.assignedClients _ = ∅ |- _ =>
           rewrite Hw, lookup_empty in Hauth end; done);
    try (intros ->; apply AuthenticateUser_spec; unfold server.client_record;
         match goal with Hw : server.assignedClients _ = ∅ |- _ =>
           by rewrite Hw, lookup_empty end).
Qed.

(** X22: a start that fails late leaves the provider published.  The
    row is added to the PKI before the address is resolved and before
    the listener is opened: when either of these fails,
    [NewProviderServer] returns the error and no provider, nothing is
    listened on, and the row stays in the PKI; when the database write
    itself fails, nothing is added. *)
Theorem failed_start_leaves_pki_row id host port pubKey prvKey pkiPath
    (o : server_startup.Outside) configBytes e rest :
  let config := {| server_startup.Config_Id := id; server_startup.Config_Host := host;
                   server_startup.Config_Port := port;
                   server_startup.Config_PubKey := pubKey |} in
  let started :=
    server_startup.NewProviderServer Marshal id host port pubKey prvKey pkiPath o in
  Marshal config = inr configBytes →
  (server_startup.pending o = None :: Some e :: rest
   ∨ server_startup.pending o = None :: None :: Some e :: rest →
   started.1 = inl e
   ∧ server_startup.pki_rows started.2
     = server_startup.pki_rows o ++ [(pkiPath, "Pki", id, "Provider", configBytes)]
   ∧ server_startup.listening started.2 = server_startup.listening o)
  ∧ (server_startup.pending o = Some e :: rest →
     started.1 = inl e
     ∧ server_startup.pki_rows started.2 = server_startup.pki_rows o
     ∧ server_startup.listening started.2 = server_startup.listening o).
Proof.
  intros config started Hmarshal. subst started.
  unfold server_startup.NewProviderServer, server_startup.AddToDatabase,
    server_startup.ResolveTCPAddress, server_startup.ListenTCP,
    server_startup.boot_io. simpl. fold config. rewrite Hmarshal.
  destruct o as [rows ports tape]. simpl.
  split; [intros [->| ->]|intros ->]; done.
Qed.

End constructor_more.

Lemma new_provider_knows_nobody_witness :
  let started :=
    server_startup.NewProviderServer
      (λ config, inr (list_byte_of_string (server_startup.Config_Id config)))
      "provider1" "10.0.0.1" "9999" [x01] [x02] "pki.db"
      {| server_startup.pki_rows := []; server_startup.listening := [];
         server_startup.pending := [] |} in
  ∃ p, started.1 = inr p
    ∧ server_startup.assignedClients p = ∅
    ∧ server_startup.listening started.2 = [] ++ ["10.0.0.1" +:+ ":" +:+ "9999"]
    ∧ ∀ presented,
        server.AuthenticateUser toy.fresh "anyone" presented = true ↔ presented = [].
Proof.
  intros started. subst started.
  destruct (server_startup.NewProviderServer _ _ _ _ _ _ _ _) as [[e|p] o'] eqn:Hrun;
    [discriminate Hrun|].
  destruct (new_provider_knows_nobody _ _ _ _ _ _ _ _ _ _ Hrun)
    as (Hempty & _ & _ & _ & Hlistening & Hauth).
  exists p. split; [done|]. split; [done|]. split; [done|].
  intros presented. apply Hauth. by rewrite Hempty.
Defined.

Lemma failed_start_leaves_pki_row_witness :
  let started :=
    server_startup.NewProviderServer
      (λ config, inr (list_byte_of_string (server_startup.Config_Id config)))
      "provider1" "10.0.0.1" "9999" [x01] [x02] "pki.db"
      {| server_startup.pki_rows := []; server_startup.listening := [];
         server_startup.pending :=
           [None; None; Some (errorString "listen tcp: address already in use")] |} in
  started.1 = inl (errorString "listen tcp: address already in use")
  ∧ server_startup.pki_rows started.2
    = [] ++ [("pki.db", "Pki", "provider1", "Provider", list_byte_of_string "provider1")]
  ∧ server_startup.listening started.2 = [].
Proof.
  intros started.
  refine (proj1 (failed_start_leaves_pki_row
            (λ config, inr (list_byte_of_string (server_startup.Config_Id config)))
            "provider1" "10.0.0.1" "9999" [x01] [x02] "pki.db"
            {| server_startup.pki_rows := []; server_startup.listening := [];
               server_startup.pending :=
                 [None; None; Some (errorString "listen tcp: address already in use")] |}
            (list_byte_of_string "provider1")
            (errorString "listen tcp: address already in use") [] eq_refl) _).
  by right.
Defined.
